(** * The finance agent: tool adapters, tool-calling loop and streaming endpoint

    A shallow embedding of
      - [src/lib/finance-agent/api.ts]                 (Alpha Vantage client),
      - [src/lib/finance-agent/tools/*.ts]             (the three tool adapters),
      - the agent runner [runFinanceAgent]             (finance-agent/index.ts),
      - [src/app/api/finance/chat/route.ts]            (the streaming endpoint).

    JavaScript strings are sequences of UTF-16 code units; [length], [slice],
    [trim] and [includes] are modelled on code units.  The language model,
    the market-data service and the process environment are external: they
    are collected in a record [World] over which every statement quantifies. *)

From Stdlib Require Import List NArith ZArith QArith Bool Arith Lia String Ascii.
From Stdlib Require Import DecimalString.
Import ListNotations.
Local Close Scope Q_scope.
Local Open Scope nat_scope.
Local Open Scope list_scope.

Set Implicit Arguments.
Set Warnings "-register-all".

(** One UTF-16 code unit. *)
Definition char16 := N.

Definition jsstring := list char16.

(* ===================================================================== *)
(** ** JavaScript strings *)
(* ===================================================================== *)

Module Js.

(** An ASCII literal of the source as a JavaScript string. *)
Fixpoint lit (s : string) : jsstring :=
  match s with
  | EmptyString => []
  | String c r => N_of_ascii c :: lit r
  end.

(** [a === b] on strings. *)
Fixpoint eqb (a b : jsstring) : bool :=
  match a, b with
  | [], [] => true
  | x :: a', y :: b' => N.eqb x y && eqb a' b'
  | _, _ => false
  end.

(** [s.startsWith(p)]. *)
Fixpoint startsWith (p s : jsstring) : bool :=
  match p, s with
  | [], _ => true
  | x :: p', y :: s' => N.eqb x y && startsWith p' s'
  | _ :: _, [] => false
  end.

(** [s.includes(needle)]. *)
Fixpoint includes (needle s : jsstring) : bool :=
  startsWith needle s ||
  match s with
  | [] => false
  | _ :: s' => includes needle s'
  end.

(** The code units removed by [String.prototype.trim]: the WhiteSpace and
    LineTerminator productions of ECMAScript. *)
Definition isWhiteSpace (c : char16) : bool :=
  ((9 <=? c) && (c <=? 13))%N
  || N.eqb c 32 || N.eqb c 160 || N.eqb c 5760
  || ((8192 <=? c) && (c <=? 8202))%N
  || N.eqb c 8232 || N.eqb c 8233 || N.eqb c 8239
  || N.eqb c 8287 || N.eqb c 12288 || N.eqb c 65279.

Fixpoint trimStart (s : jsstring) : jsstring :=
  match s with
  | [] => []
  | c :: r => if isWhiteSpace c then trimStart r else s
  end.

Definition trimEnd (s : jsstring) : jsstring := rev (trimStart (rev s)).

(** [s.trim()]. *)
Definition trim (s : jsstring) : jsstring := trimEnd (trimStart s).

(** [s.slice(0, n)] for a non-negative integer [n]. *)
Definition slice0 (n : nat) (s : jsstring) : jsstring := firstn n s.

(** [`${n}`] for a non-negative integer. *)
Definition ofN (n : N) : jsstring := lit (NilEmpty.string_of_uint (N.to_uint n)).

End Js.

Arguments Js.lit s%_string.
Abbreviation js := Js.lit.

(** Glyphs of the sources that are not ASCII. *)
Definition LF : jsstring := [10%N].
(** U+26A0 U+FE0F, the warning sign of stock-quote.ts and company-info.ts. *)
Definition WARNING_SIGN : jsstring := [9888%N; 65039%N].
(** U+274C, the cross mark of stock-quote.ts and company-info.ts. *)
Definition CROSS_MARK : jsstring := [10060%N].
(** company-news.ts holds the same two glyphs and the newspaper glyph as the
    code units its file stores (their UTF-8 bytes read as an 8-bit code page). *)
Definition NEWS_WARNING_SIGN : jsstring :=
  [8218%N; 246%N; 8224%N; 212%N; 8719%N; 232%N].
Definition NEWS_CROSS_MARK : jsstring := [8218%N; 249%N; 229%N].
Definition NEWS_PAPER : jsstring := [63743%N; 252%N; 236%N; 8734%N].

(** ** Thrown values

    Everything the sources throw or catch is an [Error] read through its
    [message]. *)
Record Error := mkError { message : jsstring }.

Notation "'Result' A" := (sum Error A) (at level 10, only parsing).

(* ===================================================================== *)
(** ** JSON values *)
(* ===================================================================== *)

Inductive JSON : Type :=
| JNull
| JBool (b : bool)
| JNum (q : Q)
| JStr (s : jsstring)
| JArr (items : list JSON)
| JObj (fields : list (jsstring * JSON)).

(** [obj[key]] on an object's own properties; [None] is [undefined]. *)
Fixpoint lookup (key : jsstring) (fields : list (jsstring * JSON)) : option JSON :=
  match fields with
  | [] => None
  | (k, v) :: rest => if Js.eqb k key then Some v else lookup key rest
  end.

(** [v[key]] for a value that is not [null]: only objects carry the
    properties read here. *)
Definition prop (key : jsstring) (v : JSON) : option JSON :=
  match v with
  | JObj fields => lookup key fields
  | _ => None
  end.

(** [!v] for a value or [undefined]. *)
Definition falsy (v : option JSON) : bool :=
  match v with
  | None => true
  | Some JNull => true
  | Some (JBool b) => negb b
  | Some (JNum q) => Qeq_bool q 0
  | Some (JStr s) => match s with [] => true | _ => false end
  | Some (JArr _) => false
  | Some (JObj _) => false
  end.

(** [v[key]] as the engine evaluates it: reading a property of [null]
    throws a TypeError (the text is V8's). *)
Definition get (key : jsstring) (v : JSON) : Result (option JSON) :=
  match v with
  | JNull => inl (mkError (js "Cannot read properties of null (reading '" ++ key ++ js "')"))
  | _ => inr (prop key v)
  end.

(** ** The error monad of code that may throw *)

Definition bind {A B : Type} (m : Result A) (k : A -> Result B) : Result B :=
  match m with
  | inl e => inl e
  | inr a => k a
  end.

Notation "x <- m ;; k" := (bind m (fun x => k))
  (at level 61, m at next level, right associativity).

(* ===================================================================== *)
(** ** Conversation *)
(* ===================================================================== *)

(** A tool call requested by the model ([name], [args], [id?]). *)
Record ToolCall := mkToolCall {
  call_name : jsstring;
  call_args : JSON;
  call_id : option jsstring
}.

Record AIMessage := mkAIMessage {
  content : jsstring;
  tool_calls : option (list ToolCall)
}.

Record ToolMessage := mkToolMessage {
  tool_content : jsstring;
  tool_call_id : option jsstring
}.

Inductive Message : Type :=
| System (text : jsstring)
| Human (text : jsstring)
| AI (m : AIMessage)
| Tool (m : ToolMessage).

(* ===================================================================== *)
(** ** The world outside the program *)
(* ===================================================================== *)

(** What one HTTP request to Alpha Vantage comes back with. *)
Inductive Upstream : Type :=
| FetchRejects (e : Error)
    (** [fetch(url)] rejects: a transport error *)
| Responds (ok : bool) (status : N) (body : Result JSON).
    (** a response with [response.ok], [response.status] and the outcome
        of [response.json()] *)

Record World := mkWorld {
  (** [process.env] *)
  OPENAI_API_KEY : option jsstring;
  ALPHA_VANTAGE_API_KEY : option jsstring;
  (** the constant of prompts.ts *)
  FINANCE_AGENT_SYSTEM_PROMPT : jsstring;
  (** [llm.invoke(messages)] of loop iteration [i]: a reply or a thrown error *)
  llm_invoke : nat -> list Message -> Result AIMessage;
  (** the answer to the request made for call [j] of iteration [i] *)
  fetch : nat -> nat -> Upstream;
  (** [String.prototype.toUpperCase] and [JSON.stringify] *)
  toUpperCase : jsstring -> jsstring;
  JSON_stringify : JSON -> jsstring;
  (** Number parsing and formatting ([parseFloat], [toFixed], dates) of a
      well-identified payload: building the [StockQuote] / [CompanyInfo] /
      [NewsArticle] values and rendering them as the adapters do.  Either
      step may throw a TypeError on a field that is absent. *)
  format_quote : JSON -> Result jsstring;
  format_info : JSON -> Result jsstring;
  format_news : jsstring -> list JSON -> Result jsstring
}.

(* ===================================================================== *)
(** ** api.ts: the Alpha Vantage client *)
(* ===================================================================== *)

Definition DQUOTE : jsstring := [34%N].

Definition getApiKey (w : World) : Result jsstring :=
  match ALPHA_VANTAGE_API_KEY w with
  | None | Some [] =>
      inl (mkError (js "ALPHA_VANTAGE_API_KEY is not set." ++ LF ++
                    js "Get a free key at: https://www.alphavantage.co/support/#api-key" ++ LF ++
                    js "Then add it to your .env.local file."))
  | Some key => inr key
  end.

(** [fetch], the [response.ok] test and [response.json()], shared by the
    three functions. *)
Definition fetch_data (u : Upstream) : Result JSON :=
  match u with
  | FetchRejects e => inl e
  | Responds ok status body =>
      if negb ok then inl (mkError (js "Alpha Vantage API error: " ++ Js.ofN status))
      else body
  end.

Definition RATE_LIMITED : Error :=
  mkError (js "RATE_LIMITED: Alpha Vantage free tier allows 25 requests/day").

(** Returns [data['Global Quote']] once it is known to carry a symbol; the
    [StockQuote] is built from it by [format_quote]. *)
Definition getStockQuote (w : World) (u : Upstream) (symbol : jsstring) : Result JSON :=
  _ <- getApiKey w ;;
  data <- fetch_data u ;;
  quote <- get (js "Global Quote") data ;;
  let missing : Result JSON :=
    if Js.includes (js "rate limit") (JSON_stringify w data) then inl RATE_LIMITED
    else inl (mkError (js "No data found for symbol: " ++ symbol)) in
  match quote with
  | None => missing
  | Some q =>
      if falsy quote || falsy (prop (js "01. symbol") q) then missing else inr q
  end.

(** Returns [data] once [data.Symbol] is present; the [CompanyInfo] is built
    from it by [format_info]. *)
Definition getCompanyInfo (w : World) (u : Upstream) (symbol : jsstring) : Result JSON :=
  _ <- getApiKey w ;;
  data <- fetch_data u ;;
  sym <- get (js "Symbol") data ;;
  if falsy sym then
    if Js.includes (js "rate limit") (JSON_stringify w data) then inl RATE_LIMITED
    else inl (mkError (js "No company info found for symbol: " ++ symbol))
  else inr data.

(** [Math.trunc] of a number, as [slice] reads its bound. *)
Definition toInteger (q : Q) : Z := Z.quot (Qnum q) (Zpos (Qden q)).

(** [items.slice(0, limit)]: a negative bound counts from the end. *)
Definition slice_to (limit : Q) (items : list JSON) : list JSON :=
  let bound := toInteger limit in
  if (bound <? 0)%Z
  then firstn (Z.to_nat (Z.of_nat (List.length items) + bound)) items
  else firstn (Z.to_nat bound) items.

(** Returns [data.feed.slice(0, limit)], the items as the service sent
    them.  The [.map(article => ...)] that follows in the source builds the
    [NewsArticle]s and throws on an item without the fields it reads; it
    keeps the number of items, and it is the first step of [format_news]
    here, inside the same [try] block of the adapter. *)
Definition getCompanyNews (w : World) (u : Upstream) (symbol : jsstring) (limit : Q)
  : Result (list JSON) :=
  _ <- getApiKey w ;;
  data <- fetch_data u ;;
  feed <- get (js "feed") data ;;
  if falsy feed then
    if Js.includes (js "rate limit") (JSON_stringify w data) then inl RATE_LIMITED
    else inr []
  else
    match feed with
    | Some (JArr items) => inr (slice_to limit items)
    | Some (JStr _) => inl (mkError (js "data.feed.slice(...).map is not a function"))
    | _ => inl (mkError (js "data.feed.slice is not a function"))
    end.

(* ===================================================================== *)
(** ** tools/*.ts: the three adapters *)
(* ===================================================================== *)

(** A [DynamicStructuredTool]: a name, a zod schema that parses the call's
    arguments, and [func].  The [func] of each adapter is one
    [try { ... } catch (error) { ... }]: [attempt] is its [try] block,
    [recover] its [catch] block.  [func] gets the answer of the one request
    it makes. *)
Record DynamicStructuredTool := mkTool {
  name : jsstring;
  Input : Type;
  schema : World -> JSON -> Result Input;
  attempt : World -> Upstream -> Input -> Result jsstring;
  recover : Input -> Error -> jsstring
}.

Definition func (t : DynamicStructuredTool) (w : World) (u : Upstream) (input : Input t)
  : jsstring :=
  match attempt t w u input with
  | inr response => response
  | inl err => recover t input err
  end.

(** What [tool.invoke] throws when the arguments do not match the schema. *)
Definition ToolInputParsingException : Error :=
  mkError (js "Received tool input did not match expected schema").

(** [StructuredTool.invoke]: parse the arguments, then run [func]. *)
Definition invoke (t : DynamicStructuredTool) (w : World) (u : Upstream) (args : JSON)
  : Result jsstring :=
  input <- schema t w args ;;
  inr (func t w u input).

(** [z.object({ symbol: z.string().toUpperCase() })]. *)
Definition symbol_schema (w : World) (args : JSON) : Result jsstring :=
  match args with
  | JObj fields =>
      match lookup (js "symbol") fields with
      | Some (JStr s) => inr (toUpperCase w s)
      | _ => inl ToolInputParsingException
      end
  | _ => inl ToolInputParsingException
  end.

Record NewsInput := mkNewsInput { symbol : jsstring; limit : Q }.

(** [z.number().min(1).max(10).default(5)]. *)
Definition limit_schema (v : option JSON) : Result Q :=
  match v with
  | None => inr (5 # 1)%Q
  | Some (JNum q) =>
      if Qle_bool 1 q && Qle_bool q (10 # 1) then inr q
      else inl ToolInputParsingException
  | Some _ => inl ToolInputParsingException
  end.

(** [z.object({ symbol: ..., limit: ... })]. *)
Definition news_schema (w : World) (args : JSON) : Result NewsInput :=
  match args with
  | JObj fields =>
      match lookup (js "symbol") fields with
      | Some (JStr s) =>
          l <- limit_schema (lookup (js "limit") fields) ;;
          inr (mkNewsInput (toUpperCase w s) l)
      | _ => inl ToolInputParsingException
      end
  | _ => inl ToolInputParsingException
  end.

Definition createStockQuoteTool : DynamicStructuredTool :=
  mkTool (js "get_stock_quote") symbol_schema
    (fun w u symbol =>
       quote <- getStockQuote w u symbol ;;
       format_quote w quote)
    (fun symbol err =>
       if Js.includes (js "RATE_LIMITED") (message err) then
         WARNING_SIGN ++ js " API rate limit reached. Alpha Vantage free tier allows 25 requests/day. Try again tomorrow or upgrade your API key."
       else if Js.includes (js "No data found") (message err) then
         CROSS_MARK ++ js " Could not find stock data for " ++ DQUOTE ++ symbol ++ DQUOTE
           ++ js ". Make sure it's a valid US stock ticker symbol."
       else CROSS_MARK ++ js " Error fetching stock quote: " ++ message err).

Definition createCompanyInfoTool : DynamicStructuredTool :=
  mkTool (js "get_company_info") symbol_schema
    (fun w u symbol =>
       info <- getCompanyInfo w u symbol ;;
       format_info w info)
    (fun symbol err =>
       if Js.includes (js "RATE_LIMITED") (message err) then
         WARNING_SIGN ++ js " API rate limit reached. Alpha Vantage free tier allows 25 requests/day."
       else if Js.includes (js "No company info found") (message err) then
         CROSS_MARK ++ js " Could not find company info for " ++ DQUOTE ++ symbol ++ DQUOTE
           ++ js ". Make sure it's a valid US stock ticker."
       else CROSS_MARK ++ js " Error fetching company info: " ++ message err).

Definition createCompanyNewsTool : DynamicStructuredTool :=
  mkTool (js "get_company_news") news_schema
    (fun w u input =>
       articles <- getCompanyNews w u (symbol input) (limit input) ;;
       match articles with
       | [] => inr (NEWS_PAPER ++ js " No recent news found for " ++ symbol input ++ js ".")
       | _ :: _ => format_news w (symbol input) articles
       end)
    (fun input err =>
       if Js.includes (js "RATE_LIMITED") (message err) then
         NEWS_WARNING_SIGN ++ js " API rate limit reached. Alpha Vantage free tier allows 25 requests/day."
       else NEWS_CROSS_MARK ++ js " Error fetching news: " ++ message err).

(* ===================================================================== *)
(** ** index.ts: the agent runner *)
(* ===================================================================== *)

Record AgentResponse := mkAgentResponse { output : jsstring }.

Definition maxIterations : nat := 10.

Definition getOpenAIKey (w : World) : Result jsstring :=
  match OPENAI_API_KEY w with
  | None | Some [] =>
      inl (mkError (js "OPENAI_API_KEY is not set." ++ LF ++
                    js "Get a key at: https://platform.openai.com/api-keys" ++ LF ++
                    js "Then add it to your .env.local file."))
  | Some key => inr key
  end.

Definition tools : list DynamicStructuredTool :=
  [createStockQuoteTool; createCompanyInfoTool; createCompanyNewsTool].

(** [tools.find(t => t.name === toolCall.name)]. *)
Definition find_tool (nm : jsstring) : option DynamicStructuredTool :=
  find (fun t => Js.eqb (name t) nm) tools.

(** The callback mapped over [toolCalls]: call [j] of iteration [i].
    [None] is the [null] returned for an unknown tool. *)
Definition run_tool_call (w : World) (i j : nat) (toolCall : ToolCall) : option ToolMessage :=
  match find_tool (call_name toolCall) with
  | Some tool =>
      match invoke tool w (fetch w i j) (call_args toolCall) with
      | inr result => Some (mkToolMessage result (call_id toolCall))
      | inl error =>
          Some (mkToolMessage (js "Error: " ++ message error) (call_id toolCall))
      end
  | None => None
  end.

(** [await Promise.all(toolCalls.map(...))]: one entry per call, in the
    order of the calls; [j] is the index of the first call of the list. *)
Fixpoint run_tool_calls (w : World) (i j : nat) (toolCalls : list ToolCall)
  : list (option ToolMessage) :=
  match toolCalls with
  | [] => []
  | toolCall :: rest => run_tool_call w i j toolCall :: run_tool_calls w i (S j) rest
  end.

(** [for (const result of toolResults) if (result) messages.push(result)]:
    the messages pushed. *)
Fixpoint pushed (toolResults : list (option ToolMessage)) : list Message :=
  match toolResults with
  | [] => []
  | Some result :: rest => Tool result :: pushed rest
  | None :: rest => pushed rest
  end.

(** The calls for which [tool.invoke] ran. *)
Definition invoked (toolCalls : list ToolCall) : list ToolCall :=
  filter (fun c => match find_tool (call_name c) with Some _ => true | None => false end)
         toolCalls.

(** What a run of the agent did. *)
Record Run := mkRun {
  outcome : Result AgentResponse;       (** returned value or thrown error *)
  conversation : list Message;          (** [messages] when the run ended *)
  invocations : list (list Message);    (** the argument of each [llm.invoke], in order *)
  executions : list ToolCall            (** the calls given to [tool.invoke], in order *)
}.

Definition FALLBACK : jsstring :=
  js "I was unable to complete the research. Please try a simpler question.".

(** The [for] loop from iteration [i] on, with [n = maxIterations - i]
    iterations left. *)
Fixpoint tool_loop (w : World) (n i : nat) (messages : list Message) : Run :=
  match n with
  | 0 => mkRun (inr (mkAgentResponse FALLBACK)) messages [] []
  | S n' =>
      match llm_invoke w i messages with
      | inl error => mkRun (inl error) messages [messages] []
      | inr response =>
          let messages1 := messages ++ [AI response] in
          match tool_calls response with
          | None | Some [] =>
              mkRun (inr (mkAgentResponse (content response))) messages1 [messages] []
          | Some toolCalls =>
              let toolResults := run_tool_calls w i 0 toolCalls in
              let rest := tool_loop w n' (S i) (messages1 ++ pushed toolResults) in
              mkRun (outcome rest) (conversation rest)
                    (messages :: invocations rest)
                    (invoked toolCalls ++ executions rest)
          end
      end
  end.

Definition runFinanceAgent (w : World) (query : jsstring) : Run :=
  match getOpenAIKey w with
  | inl error => mkRun (inl error) [] [] []
  | inr _ =>
      tool_loop w maxIterations 0
        [System (FINANCE_AGENT_SYSTEM_PROMPT w); Human query]
  end.

(* ===================================================================== *)
(** ** route.ts: the streaming endpoint *)
(* ===================================================================== *)

(** The [type] of a frame: ['thought'], ['message'] (here [answer]) and
    ['error']. *)
Inductive StreamMessageType := thought | answer | error.

Record StreamMessage := mkStreamMessage {
  type : StreamMessageType;
  payload : jsstring          (** the [content] field *)
}.

(** The [ReadableStreamDefaultController] of the response: the chunks
    enqueued so far, in order, and whether [close()] was called.  Once it
    was, [enqueue] and [close] throw and change nothing. *)
Record Controller := mkController {
  queue : list StreamMessage;
  closeRequested : bool
}.

Definition CLOSED : Error := mkError (js "Invalid state: Controller is already closed").

(** How a block of statements ends: normally with a value, by [return], or
    by a thrown error. *)
Inductive Completion (A : Type) : Type :=
| Normal (a : A)
| Returned
| Thrown (e : Error).
Arguments Returned {A}.
Arguments Thrown {A} e.

(** The state [start(controller)] works on: the controller, and the run of
    the agent once there was one. *)
Record State := mkState {
  controller : Controller;
  agent : option Run
}.

Definition Task (A : Type) : Type := State -> Completion A * State.

Definition then_ {A B : Type} (m : Task A) (k : A -> Task B) : Task B :=
  fun s =>
    match m s with
    | (Normal a, s') => k a s'
    | (Returned, s') => (Returned, s')
    | (Thrown e, s') => (Thrown e, s')
    end.

Notation "x <~ m ;; k" := (then_ m (fun x => k))
  (at level 61, m at next level, right associativity).
Notation "m ;;; k" := (then_ m (fun _ => k))
  (at level 61, right associativity).

(** [return;] *)
Definition return_ {A : Type} : Task A := fun s => (Returned, s).

(** A computation that may throw, run inside the task. *)
Definition await {A : Type} (r : Result A) : Task A :=
  fun s => match r with inl e => (Thrown e, s) | inr a => (Normal a, s) end.

(** [try { body } catch (e) { handler }]. *)
Definition try_catch {A : Type} (body : Task A) (handler : Error -> Task A) : Task A :=
  fun s =>
    match body s with
    | (Thrown e, s') => handler e s'
    | done => done
    end.

(** [try { body } finally { final }]. *)
Definition try_finally {A : Type} (body : Task A) (final : Task unit) : Task A :=
  fun s =>
    match body s with
    | (c, s') =>
        match final s' with
        | (Normal _, s'') => (c, s'')
        | (Returned, s'') => (Returned, s'')
        | (Thrown e, s'') => (Thrown e, s'')
        end
    end.

(** [controller.enqueue(chunk)]. *)
Definition enqueue (chunk : StreamMessage) : Task unit :=
  fun s =>
    if closeRequested (controller s) then (Thrown CLOSED, s)
    else (Normal tt,
          mkState (mkController (queue (controller s) ++ [chunk]) false) (agent s)).

(** [controller.close()]. *)
Definition close : Task unit :=
  fun s =>
    if closeRequested (controller s) then (Thrown CLOSED, s)
    else (Normal tt, mkState (mkController (queue (controller s)) true) (agent s)).

(** [send(data)]: the frame is encoded and enqueued. *)
Definition send (t : StreamMessageType) (c : jsstring) : Task unit :=
  enqueue (mkStreamMessage t c).

(** [await runFinanceAgent(message)]. *)
Definition run_agent (w : World) (query : jsstring) : Task AgentResponse :=
  fun s =>
    let r := runFinanceAgent w query in
    let s' := mkState (controller s) (Some r) in
    match outcome r with
    | inl e => (Thrown e, s')
    | inr result => (Normal result, s')
    end.

(** [typeof v === 'string'] and the string a value is when it is one. *)
Definition is_string (v : option JSON) : bool :=
  match v with
  | Some (JStr _) => true
  | _ => false
  end.

Definition as_string (v : option JSON) : jsstring :=
  match v with
  | Some (JStr s) => s
  | _ => []
  end.

(** [message.trim().slice(0, 500)]: the text handed to the agent. *)
Definition agent_input (s : jsstring) : jsstring := Js.slice0 500 (Js.trim s).

(** The body of [start(controller)].  [request_json] is what
    [await request.json()] settles to. *)
Definition start (w : World) (request_json : Result JSON) : Task unit :=
  try_finally
    (try_catch
       (msg <~ try_catch
                 (body <~ await request_json ;; await (get (js "message") body))
                 (fun _ => send error (js "Invalid request body") ;;; close ;;; return_) ;;
        if falsy msg || negb (is_string msg)
           || (List.length (Js.trim (as_string msg)) =? 0)
        then
          send error (js "Please provide a message") ;;; close ;;; return_
        else
          let message := agent_input (as_string msg) in
          send thought (js "Researching...") ;;;
          result <~ run_agent w message ;;
          send answer (output result))
       (fun err =>
          if Js.includes (js "OPENAI_API_KEY") (message err) then
            send error (js "OpenAI API key is not configured.")
          else if Js.includes (js "ALPHA_VANTAGE_API_KEY") (message err) then
            send error (js "Alpha Vantage API key is not configured.")
          else
            send error (js "Something went wrong. Please try again.")))
    close.

(** What [start] did for a request, as calls on the controller: how it
    settled, the frames it enqueued, in order, whether it called [close()]
    with success, and the run of the agent.  What a reader of the response
    receives of this is [consume], below. *)
Record Response := mkResponse {
  settled : Completion unit;
  frames : list StreamMessage;
  closed : bool;
  run : option Run
}.

Definition POST (w : World) (request_json : Result JSON) : Response :=
  match start w request_json (mkState (mkController [] false) None) with
  | (c, s) => mkResponse c (queue (controller s)) (closeRequested (controller s)) (agent s)
  end.

(** *** What the reader of the response receives

    The response body is a [ReadableStream] whose underlying source is
    [start].  By the Streams standard a chunk enqueued while a read is
    pending goes to the reader at once, and otherwise waits in the queue;
    [close()] closes the stream at once when the queue is empty, and
    otherwise once the queue is drained; and when the promise of [start]
    rejects, a stream that is still readable drops its queue and becomes
    errored ([ReadableStreamDefaultControllerError]), while a stream that is
    already closed stays as it is. *)

(** When the consumer of the response reads. *)
Inductive Reader : Type :=
| Waiting   (** a read is pending whenever [start] enqueues a chunk *)
| Late.     (** the first read comes after the settlement of [start] was handled *)

(** How the stream ends for the reader. *)
Inductive StreamEnd : Type :=
| EndOfStream               (** [done: true] *)
| StreamError (e : Error)   (** the read rejects with [e] *)
| StillOpen.                (** neither: the stream is left open *)

Record Received := mkReceived {
  received : list StreamMessage;
  ending : StreamEnd
}.

Definition consume (reader : Reader) (r : Response) : Received :=
  match settled r with
  | Thrown e =>
      match reader with
      | Waiting =>
          mkReceived (frames r) (if closed r then EndOfStream else StreamError e)
      | Late =>
          match frames r, closed r with
          | [], true => mkReceived [] EndOfStream
          | _, _ => mkReceived [] (StreamError e)
          end
      end
  | _ => mkReceived (frames r) (if closed r then EndOfStream else StillOpen)
  end.

(* --------------------------------------------------------------------- *)
(** *** Worlds and requests used in examples *)
(* --------------------------------------------------------------------- *)

(** ASCII letters only; enough for the tickers of the examples. *)
Definition ascii_upper (s : jsstring) : jsstring :=
  map (fun c => if ((97 <=? c) && (c <=? 122))%N then (c - 32)%N else c) s.

Definition request_with (m : jsstring) : Result JSON :=
  inr (JObj [(js "message", JStr m)]).

Definition call (nm : string) (sym : string) (id : string) : ToolCall :=
  mkToolCall (js nm) (JObj [(js "symbol", JStr (js sym))]) (Some (js id)).

(** A world with both keys set, the given model, and a market-data
    service that answers every request with [body]. *)
Definition world_of (llm : nat -> list Message -> Result AIMessage)
    (body : JSON) (stringified : jsstring) : World :=
  mkWorld (Some (js "sk-test")) (Some (js "demo"))
    (js "You are a financial research analyst assistant.")
    llm
    (fun _ _ => Responds true 200 (inr body))
    ascii_upper
    (fun _ => stringified)
    (fun _ => inr (js "quote"))
    (fun _ => inr (js "info"))
    (fun _ _ => inr (js "news")).

Definition quota_body : JSON :=
  JObj [(js "Information", JStr (js "Our standard API rate limit is 25 requests per day."))].

Definition quota_text : jsstring :=
  js "{" ++ DQUOTE ++ js "Information" ++ DQUOTE ++ js ":" ++ DQUOTE
    ++ js "Our standard API rate limit is 25 requests per day." ++ DQUOTE ++ js "}".

Definition nvda_body : JSON :=
  JObj [(js "Global Quote", JObj [(js "01. symbol", JStr (js "NVDA"))]);
        (js "Symbol", JStr (js "NVDA"));
        (js "feed", JArr [JObj []; JObj []; JObj []])].

Definition nvda_text : jsstring := js "{...}".

(** A payload that knows nothing of the symbol asked for. *)
Definition unknown_body : JSON :=
  JObj [(js "Information", JStr (js "Invalid inputs."))].

Definition unknown_text : jsstring :=
  js "{" ++ DQUOTE ++ js "Information" ++ DQUOTE ++ js ":" ++ DQUOTE
    ++ js "Invalid inputs." ++ DQUOTE ++ js "}".

(** A model that asks for the same quote whatever it is told, against a
    service that is out of quota. *)
Definition insistent_world : World :=
  world_of (fun _ _ => inr (mkAIMessage [] (Some [call "get_stock_quote" "nvda" "call_1"])))
           quota_body quota_text.

(** A model that first asks for a tool that does not exist and for a quote,
    then answers. *)
Definition inventive_world : World :=
  world_of (fun i _ =>
              match i with
              | 0 => inr (mkAIMessage []
                            (Some [call "get_weather" "nvda" "call_0";
                                   call "get_stock_quote" "nvda" "call_1"]))
              | _ => inr (mkAIMessage (js "NVDA is up.") None)
              end)
           nvda_body nvda_text.

(** A model that first asks for a quote and for company information at
    once, then answers. *)
Definition parallel_world : World :=
  world_of (fun i _ =>
              match i with
              | 0 => inr (mkAIMessage []
                            (Some [call "get_stock_quote" "nvda" "call_1";
                                   call "get_company_info" "nvda" "call_2"]))
              | _ => inr (mkAIMessage (js "NVDA is up.") (Some []))
              end)
           nvda_body nvda_text.

(** The text of the last user turn of a conversation. *)
Fixpoint last_human (conv : list Message) : jsstring :=
  match conv with
  | [] => []
  | Human text :: rest =>
      match last_human rest with
      | [] => text
      | later => later
      end
  | _ :: rest => last_human rest
  end.

(** A model that answers with the question it was asked. *)
Definition echo_world : World :=
  world_of (fun _ conv => inr (mkAIMessage (last_human conv) None))
           nvda_body nvda_text.

(** 499 letters, a space and one more letter: 501 code units. *)
Definition long_message : jsstring :=
  repeat 97%N 499 ++ js " b".

(* --------------------------------------------------------------------- *)
(** *** Vocabulary of the statements *)
(* --------------------------------------------------------------------- *)

Definition please_provide : StreamMessage :=
  mkStreamMessage error (js "Please provide a message").

Definition researching : StreamMessage :=
  mkStreamMessage thought (js "Researching...").

(** The frame the [catch] block of [start] sends for a thrown error. *)
Definition failure_frame (err : Error) : StreamMessage :=
  mkStreamMessage error
    (if Js.includes (js "OPENAI_API_KEY") (message err) then
       js "OpenAI API key is not configured."
     else if Js.includes (js "ALPHA_VANTAGE_API_KEY") (message err) then
       js "Alpha Vantage API key is not configured."
     else js "Something went wrong. Please try again.").

(** A message the checks of [start] let through. *)
Definition accepted (msg : option JSON) : option jsstring :=
  match msg with
  | Some (JStr s) => if List.length (Js.trim s) =? 0 then None else Some s
  | _ => None
  end.

(** [undefined], not a string, or the empty string. *)
Definition no_message (msg : option JSON) : bool :=
  match msg with
  | Some (JStr (_ :: _)) => false
  | _ => true
  end.

(** The reply asks for at least one tool. *)
Definition carries_tool_calls (response : AIMessage) : bool :=
  match tool_calls response with
  | Some (_ :: _) => true
  | _ => false
  end.

(** The calls of a reply ([undefined] counts as none). *)
Definition calls (response : AIMessage) : list ToolCall :=
  match tool_calls response with
  | Some toolCalls => toolCalls
  | None => []
  end.

(** The conversation at the start of each iteration, then the conversation
    the run ended with. *)
Definition states (r : Run) : list (list Message) :=
  invocations r ++ [conversation r].

(** The name is one of the registry. *)
Definition registered (nm : jsstring) : bool :=
  match find_tool nm with
  | Some _ => true
  | None => false
  end.

(** The identifiers of the tool calls the assistant turns of a
    conversation carry. *)
Definition requested_ids (conv : list Message) : list (option jsstring) :=
  flat_map (fun m => match m with
                     | AI a => map call_id (calls a)
                     | _ => []
                     end) conv.

(** No orphan result: whatever precedes a tool result in the conversation
    holds a tool call with the identifier of the result. *)
Definition well_matched (conv : list Message) : Prop :=
  forall pre t post,
    conv = pre ++ Tool t :: post ->
    In (tool_call_id t) (requested_ids pre).

(** Every tool call of the conversation names a tool of the registry. *)
Definition all_registered (conv : list Message) : bool :=
  forallb (fun m => match m with
                    | AI a => forallb (fun c => registered (call_name c)) (calls a)
                    | _ => true
                    end) conv.


(** The last code unit of the string, if any, is not white space. *)
Definition ends_clean (s : jsstring) : bool :=
  match rev s with
  | [] => true
  | c :: _ => negb (Js.isWhiteSpace c)
  end.

(** The payload names no quote, no company and no feed: what the three
    functions of api.ts test before they read it. *)
Definition unidentified (data : JSON) : bool :=
  match data with
  | JNull => false
  | _ =>
      match prop (js "Global Quote") data with
      | None => true
      | Some q => falsy (Some q) || falsy (prop (js "01. symbol") q)
      end
      && falsy (prop (js "Symbol") data)
      && falsy (prop (js "feed") data)
  end.


(** The key is set and the service answered with a payload that names
    nothing and does not speak of a rate limit: the symbol is not known. *)
Definition symbol_unknown (w : World) (u : Upstream) : bool :=
  match getApiKey w, fetch_data u with
  | inr _, inr data =>
      unidentified data && negb (Js.includes (js "rate limit") (JSON_stringify w data))
  | _, _ => false
  end.

(** A service that does not know the symbol. *)
Definition unknown_world : World :=
  world_of (fun _ _ => inr (mkAIMessage (js "Nothing found.") None))
           unknown_body unknown_text.

(* ===================================================================== *)
(** ** projects/finance-agent/page.tsx: what the page submits *)
(* ===================================================================== *)

Module FinanceAgent.



End FinanceAgent.

(* ===================================================================== *)
(** ** The music recommender page: the selection of songs *)
(* ===================================================================== *)

Module SpotifyAI.

Record Song := mkSong {
  id : jsstring;
  title : jsstring;
  artist : jsstring;
  album : option jsstring;
  genre : option jsstring;
  year : option Q;
  preview_url : option jsstring;
  spotify_url : option jsstring;
  image : option jsstring
}.

(** The state variables of the component the handlers below touch. *)
Record State := mkState {
  searchQuery : jsstring;
  selectedSongs : list Song;
  filteredSongs : list Song;
  showResults : bool;
  recommendation : option JSON
}.

(** [useState] initial values. *)
Definition initial : State := mkState [] [] [] false None.

Definition handleSelectSong (song : Song) (st : State) : State :=
  if List.length (selectedSongs st) <? 3 then
    mkState [] (selectedSongs st ++ [song]) (filteredSongs st) false (recommendation st)
  else st.

Definition handleRemoveSong (songId : jsstring) (st : State) : State :=
  mkState (searchQuery st)
          (filter (fun s => negb (Js.eqb (id s) songId)) (selectedSongs st))
          (filteredSongs st) (showResults st) None.

(** [data.tracks.filter(song => !selectedSongs.find(s => s.id === song.id))]. *)
Definition filterTracks (selected tracks : list Song) : list Song :=
  filter (fun song =>
            match find (fun s => Js.eqb (id s) (id song)) selected with
            | Some _ => false
            | None => true
            end) tracks.

(** The callback of the search effect when [data.tracks] has arrived.
    [captured] is the [selectedSongs] of the render in which the search was
    scheduled: the callback closes over it, and [clearTimeout] does not stop
    a request that is already on its way. *)
Definition showTracks (captured tracks : list Song) (st : State) : State :=
  mkState (searchQuery st) (selectedSongs st)
          (filterTracks captured tracks) true (recommendation st).

(** A click on the page: on a search result, or on the remove button of a
    selected song. *)
Inductive Click : Type :=
| Select (song : Song)
| Remove (songId : jsstring).

Definition click (st : State) (c : Click) : State :=
  match c with
  | Select song => handleSelectSong song st
  | Remove songId => handleRemoveSong songId st
  end.

End SpotifyAI.

(* --------------------------------------------------------------------- *)
(** *** More vocabulary *)
(* --------------------------------------------------------------------- *)

Definition is_tool (m : Message) : bool :=
  match m with
  | Tool _ => true
  | _ => false
  end.

(** Every call of an assistant turn that names a tool of the registry is
    answered later in the conversation by a result with its identifier. *)
Definition answered (conv : list Message) : Prop :=
  forall pre a post c,
    conv = pre ++ AI a :: post ->
    In c (calls a) ->
    registered (call_name c) = true ->
    exists t, In (Tool t) post /\ tool_call_id t = call_id c.

(** Two songs of the examples. *)
Definition song_a : SpotifyAI.Song :=
  SpotifyAI.mkSong (js "4uLU6hMCjMI75M1A2tKUQC") (js "Never Gonna Give You Up")
    (js "Rick Astley") None None None None None None.

Definition song_b : SpotifyAI.Song :=
  SpotifyAI.mkSong (js "7GhIk7Il098yCjg4BQjzvb") (js "Africa")
    (js "TOTO") None None None None None None.

(** The texts an error frame of the endpoint can carry. *)
Definition error_texts : list jsstring :=
  [js "Invalid request body";
   js "Please provide a message";
   js "OpenAI API key is not configured.";
   js "Alpha Vantage API key is not configured.";
   js "Something went wrong. Please try again."].

(** A decimal digit. *)
Definition is_digit (c : char16) : bool := ((48 <=? c) && (c <=? 57))%N.

(** A world of the examples with a key left out. *)
Definition without_openai_key (w : World) : World :=
  mkWorld None (ALPHA_VANTAGE_API_KEY w) (FINANCE_AGENT_SYSTEM_PROMPT w)
    (llm_invoke w) (fetch w) (toUpperCase w) (JSON_stringify w)
    (format_quote w) (format_info w) (format_news w).

Definition without_alpha_vantage_key (w : World) : World :=
  mkWorld (OPENAI_API_KEY w) None (FINANCE_AGENT_SYSTEM_PROMPT w)
    (llm_invoke w) (fetch w) (toUpperCase w) (JSON_stringify w)
    (format_quote w) (format_info w) (format_news w).

(* ===================================================================== *)
(** * Auxiliary facts *)
(* ===================================================================== *)

(** ** Strings *)

Lemma trimStart_nil_iff (s : jsstring) :
  Js.trimStart s = [] <-> forallb Js.isWhiteSpace s = true.
Proof.
  induction s as [|c r IH]; simpl.
  - tauto.
  - destruct (Js.isWhiteSpace c); simpl.
    + exact IH.
    + split; discriminate.
Qed.

Lemma trimStart_head (s r : jsstring) (c : char16) :
  Js.trimStart s = c :: r -> Js.isWhiteSpace c = false.
Proof.
  induction s as [|d s' IH]; simpl; [discriminate|].
  destruct (Js.isWhiteSpace d) eqn:D; [exact IH|].
  intros E. injection E as <- _. exact D.
Qed.

Lemma trim_nil_iff (s : jsstring) :
  Js.trim s = [] <-> forallb Js.isWhiteSpace s = true.
Proof.
  unfold Js.trim, Js.trimEnd. split.
  - intros H. apply trimStart_nil_iff.
    apply (f_equal (@rev _)) in H. rewrite rev_involutive in H.
    change (rev []) with (@nil char16) in H.
    apply trimStart_nil_iff in H. rewrite forallb_forall in H.
    destruct (Js.trimStart s) as [|c r] eqn:E; [reflexivity|].
    assert (Hc : Js.isWhiteSpace c = true).
    { apply H. apply -> in_rev. left. reflexivity. }
    rewrite (trimStart_head _ E) in Hc. discriminate.
  - intros H. apply trimStart_nil_iff in H. rewrite H. reflexivity.
Qed.

Lemma trimStart_app_clean (l r : jsstring) (c : char16) :
  Js.isWhiteSpace c = false ->
  Js.trimStart (l ++ c :: r) = Js.trimStart l ++ c :: r.
Proof.
  intros Hc. induction l as [|d l IH]; simpl.
  - rewrite Hc. reflexivity.
  - destruct (Js.isWhiteSpace d); [exact IH|reflexivity].
Qed.

Lemma trimStart_clean (c : char16) (r : jsstring) :
  Js.isWhiteSpace c = false -> Js.trimStart (c :: r) = c :: r.
Proof. intros Hc. simpl. rewrite Hc. reflexivity. Qed.

(** What [trim] returns is empty or opens with a code unit that is not
    white space. *)
Lemma trim_head (s : jsstring) :
  Js.trim s = [] \/
  exists c r, Js.trim s = c :: r /\ Js.isWhiteSpace c = false.
Proof.
  unfold Js.trim, Js.trimEnd.
  destruct (Js.trimStart s) as [|c x] eqn:E; [left; reflexivity|right].
  pose proof (trimStart_head _ E) as Hc.
  cbn [rev]. rewrite (@trimStart_app_clean (rev x) [] c Hc), rev_app_distr. cbn.
  eauto.
Qed.

Lemma trimEnd_clean (t : jsstring) :
  ends_clean t = true -> Js.trimEnd t = t.
Proof.
  unfold ends_clean, Js.trimEnd. destruct (rev t) as [|c r] eqn:E.
  - intros _. apply (f_equal (@rev _)) in E. rewrite rev_involutive in E.
    subst t. reflexivity.
  - rewrite negb_true_iff. intros Hc. rewrite (@trimStart_clean c r Hc), <- E.
    apply rev_involutive.
Qed.

(** Truncating again changes nothing when the truncated text does not end
    in white space. *)
Lemma agent_input_fixed (s : jsstring) :
  ends_clean (agent_input s) = true ->
  Js.trim (agent_input s) = agent_input s /\
  agent_input (agent_input s) = agent_input s.
Proof.
  intros Hend.
  assert (Ht : Js.trim (agent_input s) = agent_input s).
  { unfold Js.trim at 1.
    assert (Hs : Js.trimStart (agent_input s) = agent_input s).
    { unfold agent_input, Js.slice0.
      destruct (trim_head s) as [E|[c [r [E Hc]]]]; rewrite E.
      - reflexivity.
      - cbn [firstn]. apply trimStart_clean. exact Hc. }
    rewrite Hs. apply trimEnd_clean. exact Hend. }
  split; [exact Ht|].
  unfold agent_input at 1. rewrite Ht. unfold Js.slice0.
  apply firstn_all2. unfold agent_input, Js.slice0.
  rewrite length_firstn. lia.
Qed.

Lemma eqb_eq (a b : jsstring) : Js.eqb a b = true <-> a = b.
Proof.
  revert b. induction a as [|x a IH]; destruct b as [|y b]; simpl;
    try (split; [discriminate|discriminate]); [tauto|].
  rewrite andb_true_iff, N.eqb_eq, IH. split.
  - intros [-> ->]. reflexivity.
  - intros H. injection H as -> ->. auto.
Qed.

Lemma eqb_neq (a b : jsstring) : a <> b -> Js.eqb a b = false.
Proof.
  intros H. destruct (Js.eqb a b) eqn:E; [|reflexivity].
  apply eqb_eq in E. contradiction.
Qed.

(** ** The endpoint, case by case *)

Lemma get_not_null (key : jsstring) (body : JSON) :
  body <> JNull -> get key body = inr (prop key body).
Proof. destruct body; intros H; try reflexivity. congruence. Qed.

Lemma prop_not_null (key : jsstring) (body v : JSON) :
  prop key body = Some v -> body <> JNull.
Proof. intros H ->. discriminate. Qed.

Lemma accepted_trim (s : jsstring) :
  Js.trim s <> [] -> accepted (Some (JStr s)) = Some s.
Proof.
  intros H. unfold accepted. destruct (Js.trim s); [congruence|reflexivity].
Qed.

Lemma POST_unreadable (w : World) (e : Error) :
  POST w (inl e) =
  mkResponse (Thrown CLOSED) [mkStreamMessage error (js "Invalid request body")] true None.
Proof. reflexivity. Qed.

Lemma POST_null (w : World) :
  POST w (inr JNull) =
  mkResponse (Thrown CLOSED) [mkStreamMessage error (js "Invalid request body")] true None.
Proof. reflexivity. Qed.

Lemma POST_rejected (w : World) (body : JSON) :
  body <> JNull ->
  accepted (prop (js "message") body) = None ->
  POST w (inr body) = mkResponse (Thrown CLOSED) [please_provide] true None.
Proof.
  intros Hnull Hacc.
  unfold POST, start, try_finally, try_catch, then_, await.
  rewrite (get_not_null _ Hnull).
  destruct (prop (js "message") body) as [[ | b | q | s | l | f]|];
    try (destruct b); try reflexivity.
  - cbn [falsy is_string as_string negb orb]. destruct (Qeq_bool q 0); reflexivity.
  - unfold accepted in Hacc. cbn [is_string as_string negb].
    destruct (List.length (Js.trim s) =? 0) eqn:E; [|discriminate].
    rewrite orb_true_r. reflexivity.
Qed.

Lemma POST_accepted (w : World) (body : JSON) (s : jsstring) :
  accepted (prop (js "message") body) = Some s ->
  POST w (inr body) =
  let r := runFinanceAgent w (agent_input s) in
  mkResponse (Normal tt)
    [researching;
     match outcome r with
     | inr result => mkStreamMessage answer (output result)
     | inl err => failure_frame err
     end]
    true (Some r).
Proof.
  intros Hacc.
  assert (Hnull : body <> JNull) by (intros ->; discriminate).
  unfold POST, start, try_finally, try_catch, then_, await.
  rewrite (get_not_null _ Hnull).
  destruct (prop (js "message") body) as [[ | b | q | s' | l | f]|]; try discriminate.
  unfold accepted in Hacc.
  destruct (List.length (Js.trim s') =? 0) eqn:E; [discriminate|].
  injection Hacc as ->.
  assert (Hs : s <> []).
  { intros ->. discriminate. }
  destruct s as [|c s0]; [congruence|].
  cbn [falsy is_string as_string negb orb]. rewrite E. cbv zeta.
  unfold run_agent, send, enqueue. cbn -[runFinanceAgent agent_input Js.includes js].
  destruct (outcome (runFinanceAgent w (agent_input (c :: s0)))) as [err|result];
    cbn -[runFinanceAgent agent_input Js.includes js].
  - unfold failure_frame.
    destruct (Js.includes (js "OPENAI_API_KEY") (message err));
      [reflexivity|].
    destruct (Js.includes (js "ALPHA_VANTAGE_API_KEY") (message err)); reflexivity.
  - reflexivity.
Qed.

(** Every request takes one of these two ways through [start]. *)
Lemma request_cases (w : World) (request_json : Result JSON) :
  (exists text,
      (text = js "Invalid request body" \/ text = js "Please provide a message") /\
      POST w request_json =
      mkResponse (Thrown CLOSED) [mkStreamMessage error text] true None) \/
  (exists body s,
      request_json = inr body /\
      prop (js "message") body = Some (JStr s) /\
      Js.trim s <> [] /\
      POST w request_json =
      mkResponse (Normal tt)
        [researching;
         match outcome (runFinanceAgent w (agent_input s)) with
         | inr result => mkStreamMessage answer (output result)
         | inl err => failure_frame err
         end]
        true (Some (runFinanceAgent w (agent_input s)))).
Proof.
  destruct request_json as [e|body].
  - left. eexists. split; [left; reflexivity|]. apply POST_unreadable.
  - destruct (accepted (prop (js "message") body)) as [s|] eqn:A.
    + right. exists body, s. split; [reflexivity|].
      pose proof (POST_accepted w body A) as HP.
      unfold accepted in A.
      destruct (prop (js "message") body) as [[ | b | q | s' | l | f]|];
        try discriminate.
      destruct (Js.trim s') as [|c r] eqn:T; [discriminate|].
      injection A as ->. rewrite T. repeat split; [discriminate|exact HP].
    + left. destruct body as [ | b | q | s | l | f].
      * eexists. split; [left; reflexivity|]. apply POST_null.
      * eexists. split; [right; reflexivity|].
        apply POST_rejected; [discriminate|exact A].
      * eexists. split; [right; reflexivity|].
        apply POST_rejected; [discriminate|exact A].
      * eexists. split; [right; reflexivity|].
        apply POST_rejected; [discriminate|exact A].
      * eexists. split; [right; reflexivity|].
        apply POST_rejected; [discriminate|exact A].
      * eexists. split; [right; reflexivity|].
        apply POST_rejected; [discriminate|exact A].
Qed.

(** ** The tool calls of one iteration *)

Lemma find_tool_unknown (nm : jsstring) :
  nm <> js "get_stock_quote" ->
  nm <> js "get_company_info" ->
  nm <> js "get_company_news" ->
  find_tool nm = None.
Proof.
  intros H1 H2 H3. unfold find_tool, tools, find.
  cbn [name createStockQuoteTool createCompanyInfoTool createCompanyNewsTool].
  rewrite !eqb_neq; auto.
Qed.

Lemma run_tool_calls_app (w : World) (i j : nat) (a b : list ToolCall) :
  run_tool_calls w i j (a ++ b) =
  run_tool_calls w i j a ++ run_tool_calls w i (j + List.length a) b.
Proof.
  revert j. induction a as [|c a IH]; intros j; simpl.
  - rewrite Nat.add_0_r. reflexivity.
  - rewrite IH. do 3 f_equal. lia.
Qed.

Lemma pushed_app (a b : list (option ToolMessage)) :
  pushed (a ++ b) = pushed a ++ pushed b.
Proof.
  induction a as [|[t|] a IH]; simpl; [reflexivity| |exact IH].
  rewrite IH. reflexivity.
Qed.

Lemma run_tool_call_id (w : World) (i j : nat) (c : ToolCall) (t : ToolMessage) :
  run_tool_call w i j c = Some t -> tool_call_id t = call_id c.
Proof.
  unfold run_tool_call. destruct (find_tool (call_name c)); [|discriminate].
  destruct (invoke _ _ _ _); intros E; injection E as <-; reflexivity.
Qed.

Lemma pushed_ids (w : World) (i j : nat) (cs : list ToolCall) (t : ToolMessage) :
  In (Tool t) (pushed (run_tool_calls w i j cs)) ->
  In (tool_call_id t) (map call_id cs).
Proof.
  revert j. induction cs as [|c cs IH]; intros j; simpl; [tauto|].
  destruct (run_tool_call w i j c) as [t'|] eqn:E; simpl.
  - intros [H|H].
    + injection H as ->. left. symmetry. eapply run_tool_call_id; eauto.
    + right. eapply IH; eauto.
  - intros H. right. eapply IH; eauto.
Qed.

Lemma run_tool_call_registered (w : World) (i j : nat) (c : ToolCall) :
  registered (call_name c) = true ->
  exists t, run_tool_call w i j c = Some t /\ tool_call_id t = call_id c.
Proof.
  unfold registered, run_tool_call.
  destruct (find_tool (call_name c)); [|discriminate]. intros _.
  destruct (invoke _ _ _ _); eexists; split; reflexivity.
Qed.

(** With every name in the registry, the results pushed are one per call,
    in the order of the calls. *)
Lemma pushed_complete (w : World) (i j : nat) (cs : list ToolCall) :
  (forall c, In c cs -> registered (call_name c) = true) ->
  exists results,
    pushed (run_tool_calls w i j cs) = map Tool results /\
    map tool_call_id results = map call_id cs.
Proof.
  revert j. induction cs as [|c cs IH]; intros j H.
  - exists []. split; reflexivity.
  - destruct (run_tool_call_registered w i j c) as [t [Ht Hid]].
    { apply H. left. reflexivity. }
    destruct (IH (S j)) as [results [Hp Hm]].
    { intros c' Hc'. apply H. right. exact Hc'. }
    exists (t :: results). simpl. rewrite Ht, Hp, Hid, Hm. split; reflexivity.
Qed.

Lemma pushed_nth (w : World) (i j0 k : nat) (cs : list ToolCall) (c : ToolCall)
      (t : ToolMessage) :
  nth_error cs k = Some c ->
  run_tool_call w i (j0 + k) c = Some t ->
  In (Tool t) (pushed (run_tool_calls w i j0 cs)).
Proof.
  revert j0 k. induction cs as [|c' cs IH]; intros j0 k; [destruct k; discriminate|].
  destruct k as [|k]; simpl.
  - intros E. injection E as ->. rewrite Nat.add_0_r. intros ->. left. reflexivity.
  - intros E R.
    assert (In (Tool t) (pushed (run_tool_calls w i (S j0) cs))).
    { apply (IH (S j0) k E). rewrite <- R. f_equal. lia. }
    destruct (run_tool_call w i j0 c'); [right|]; assumption.
Qed.

Lemma pushed_length (w : World) (i j : nat) (cs : list ToolCall) :
  List.length (pushed (run_tool_calls w i j cs)) = List.length (invoked cs).
Proof.
  revert j. induction cs as [|c cs IH]; intros j; [reflexivity|].
  unfold invoked in *. cbn [run_tool_calls filter]. unfold run_tool_call.
  destruct (find_tool (call_name c)) as [t|].
  - destruct (invoke t w (fetch w i j) (call_args c)); cbn [pushed List.length];
      rewrite IH; reflexivity.
  - cbn [pushed]. apply IH.
Qed.

(** ** Conversations *)

Lemma requested_ids_app (a b : list Message) :
  requested_ids (a ++ b) = requested_ids a ++ requested_ids b.
Proof. unfold requested_ids. apply flat_map_app. Qed.

Lemma well_matched_app (l ext : list Message) :
  well_matched l ->
  (forall t, In (Tool t) ext -> In (tool_call_id t) (requested_ids l)) ->
  well_matched (l ++ ext).
Proof.
  intros Hl Hext pre t post E.
  apply app_eq_app in E. destruct E as [mid [[E1 E2]|[E1 E2]]].
  - destruct mid as [|x mid].
    + rewrite app_nil_r in E1. subst pre. simpl in E2.
      apply Hext. rewrite <- E2. left. reflexivity.
    + injection E2 as <- E2. apply (Hl pre t mid). exact E1.
  - subst pre. rewrite requested_ids_app. apply in_or_app. left.
    apply Hext. rewrite E2. apply in_or_app. right. left. reflexivity.
Qed.

Lemma well_matched_prefix (l ext : list Message) :
  well_matched (l ++ ext) -> well_matched l.
Proof.
  intros H pre t post E. apply (H pre t (post ++ ext)).
  rewrite E, <- app_assoc. reflexivity.
Qed.

Lemma initial_well_matched (prompt query : jsstring) :
  well_matched [System prompt; Human query].
Proof.
  intros pre t post E.
  destruct pre as [|x [|y [|z pre]]]; discriminate.
Qed.

(** ** The tool-calling loop *)

Section Loop.

Variable w : World.

(** One iteration that ends the run, or one that goes on. *)
Lemma tool_loop_throws (n i : nat) (messages : list Message) (e : Error) :
  llm_invoke w i messages = inl e ->
  tool_loop w (S n) i messages = mkRun (inl e) messages [messages] [].
Proof. intros H. simpl. rewrite H. reflexivity. Qed.

Lemma tool_loop_final (n i : nat) (messages : list Message) (response : AIMessage) :
  llm_invoke w i messages = inr response ->
  carries_tool_calls response = false ->
  tool_loop w (S n) i messages =
  mkRun (inr (mkAgentResponse (content response))) (messages ++ [AI response])
        [messages] [].
Proof.
  intros H Hc. simpl. rewrite H. unfold carries_tool_calls in Hc.
  destruct (tool_calls response) as [[|c cs]|]; try reflexivity. discriminate.
Qed.

Lemma tool_loop_continues (n i : nat) (messages : list Message) (response : AIMessage) :
  llm_invoke w i messages = inr response ->
  carries_tool_calls response = true ->
  tool_loop w (S n) i messages =
  let rest := tool_loop w n (S i)
                ((messages ++ [AI response])
                   ++ pushed (run_tool_calls w i 0 (calls response))) in
  mkRun (outcome rest) (conversation rest)
        (messages :: invocations rest)
        (invoked (calls response) ++ executions rest).
Proof.
  intros H Hc. simpl. rewrite H. unfold carries_tool_calls, calls in *.
  destruct (tool_calls response) as [[|c cs]|]; try discriminate. reflexivity.
Qed.

(** Case analysis on what iteration [i] does. *)
Ltac iteration n i messages :=
  let E := fresh "E" in
  let C := fresh "C" in
  let e := fresh "e" in
  let response := fresh "response" in
  destruct (llm_invoke w i messages) as [e|response] eqn:E;
  [ rewrite (tool_loop_throws n i messages E)
  | destruct (carries_tool_calls response) eqn:C;
    [ rewrite (tool_loop_continues n i messages E C)
    | rewrite (tool_loop_final n i messages E C) ] ].

Lemma invocations_bound (n i : nat) (messages : list Message) :
  List.length (invocations (tool_loop w n i messages)) <= n.
Proof.
  revert i messages. induction n as [|n IH]; intros i messages.
  - simpl. lia.
  - iteration n i messages; cbn [invocations List.length]; try lia.
    specialize (IH (S i)
      ((messages ++ [AI response]) ++ pushed (run_tool_calls w i 0 (calls response)))).
    lia.
Qed.

(** The run that still asks for tools in its last permitted iteration
    ends with the fallback. *)
Lemma last_iteration_fallback (n i k : nat) (messages m : list Message)
      (response : AIMessage) :
  nth_error (invocations (tool_loop w n i messages)) k = Some m ->
  S k = n ->
  llm_invoke w (i + k) m = inr response ->
  carries_tool_calls response = true ->
  outcome (tool_loop w n i messages) = inr (mkAgentResponse FALLBACK).
Proof.
  revert i k messages. induction n as [|n IH]; intros i k messages Hk Hn Hr Hc.
  - discriminate.
  - injection Hn as Hn. destruct k as [|k].
    + subst n. rewrite Nat.add_0_r in Hr.
      assert (m = messages).
      { revert Hk. iteration 0 i messages; cbn [invocations nth_error]; congruence. }
      subst m. rewrite (tool_loop_continues 0 i messages Hr Hc). reflexivity.
    + revert Hk. iteration n i messages; cbn [invocations nth_error outcome].
      * destruct k; discriminate.
      * intros Hk. eapply IH; eauto.
        rewrite <- Hr. f_equal. lia.
      * destruct k; discriminate.
Qed.

Lemma states_head (n i : nat) (messages : list Message) :
  nth_error (states (tool_loop w n i messages)) 0 = Some messages.
Proof.
  destruct n as [|n]; [reflexivity|].
  iteration n i messages; reflexivity.
Qed.

(** What one iteration does to the conversation. *)
Lemma iteration_step (n i k : nat) (messages m m' : list Message) :
  nth_error (states (tool_loop w n i messages)) k = Some m ->
  nth_error (states (tool_loop w n i messages)) (S k) = Some m' ->
  match llm_invoke w (i + k) m with
  | inl _ => m' = m
  | inr response =>
      m' = (m ++ [AI response]) ++ pushed (run_tool_calls w (i + k) 0 (calls response))
  end.
Proof.
  revert i k messages. induction n as [|n IH]; intros i k messages.
  - simpl. destruct k; discriminate.
  - iteration n i messages.
    + destruct k as [|[|k]]; cbn; try discriminate.
      intros H1 H2. injection H1 as <-. injection H2 as <-.
      rewrite Nat.add_0_r, E. reflexivity.
    + set (next := (messages ++ [AI response])
                     ++ pushed (run_tool_calls w i 0 (calls response))).
      change (states _) with (messages :: states (tool_loop w n (S i) next)).
      destruct k as [|k]; cbn [nth_error].
      * intros H1 H2. injection H1 as <-.
        change (nth_error (states (tool_loop w n (S i) next)) 0 = Some m') in H2.
        rewrite states_head in H2.
        injection H2 as <-. rewrite Nat.add_0_r, E. reflexivity.
      * intros H1 H2. replace (i + S k) with (S i + k) by lia.
        eapply IH; eauto.
    + destruct k as [|[|k]]; cbn; try discriminate.
      intros H1 H2. injection H1 as <-. injection H2 as <-.
      rewrite Nat.add_0_r, E.
      unfold carries_tool_calls, calls in *.
      destruct (tool_calls response) as [[|c cs]|]; try discriminate;
        simpl; rewrite app_nil_r; reflexivity.
Qed.

Lemma invocations_head (n i : nat) (messages m : list Message) :
  nth_error (invocations (tool_loop w n i messages)) 0 = Some m -> m = messages.
Proof.
  destruct n as [|n]; [discriminate|].
  iteration n i messages; cbn; congruence.
Qed.

(** Two consecutive model invocations: the later one sees the earlier
    conversation, the assistant turn, and the results of that turn. *)
Lemma invocation_step (n i k : nat) (messages m m' : list Message) :
  nth_error (invocations (tool_loop w n i messages)) k = Some m ->
  nth_error (invocations (tool_loop w n i messages)) (S k) = Some m' ->
  exists response,
    llm_invoke w (i + k) m = inr response /\
    m' = (m ++ [AI response]) ++ pushed (run_tool_calls w (i + k) 0 (calls response)).
Proof.
  revert i k messages. induction n as [|n IH]; intros i k messages.
  - destruct k; discriminate.
  - iteration n i messages.
    + destruct k as [|[|k]]; discriminate.
    + cbv zeta. cbn [invocations].
      destruct k as [|k]; cbn [nth_error].
      * intros H1 H2. injection H1 as <-. apply invocations_head in H2.
        exists response. rewrite Nat.add_0_r. split; [exact E|exact H2].
      * intros H1 H2. replace (i + S k) with (S i + k) by lia.
        eapply IH; eauto.
    + destruct k as [|[|k]]; discriminate.
Qed.

(** The iteration whose assistant turn carries no tool call is the last. *)
Lemma final_is_last (n i k : nat) (messages m : list Message)
      (response : AIMessage) :
  nth_error (invocations (tool_loop w n i messages)) k = Some m ->
  llm_invoke w (i + k) m = inr response ->
  carries_tool_calls response = false ->
  List.length (invocations (tool_loop w n i messages)) = S k.
Proof.
  revert i k messages. induction n as [|n IH]; intros i k messages.
  - destruct k; discriminate.
  - destruct (llm_invoke w i messages) as [e|r] eqn:E.
    + rewrite (tool_loop_throws n i messages E).
      destruct k as [|[|k]]; cbn; try discriminate.
      intros H. injection H as <-. rewrite Nat.add_0_r, E. discriminate.
    + destruct (carries_tool_calls r) eqn:C.
      * rewrite (tool_loop_continues n i messages E C). cbv zeta.
        cbn [invocations List.length nth_error].
        destruct k as [|k]; cbn [nth_error].
        -- intros H. injection H as <-. rewrite Nat.add_0_r, E.
           intros H. injection H as <-. congruence.
        -- intros H Hr Hc. f_equal. eapply IH; eauto.
           rewrite <- Hr. f_equal. lia.
      * rewrite (tool_loop_final n i messages E C).
        destruct k as [|[|k]]; cbn; try discriminate. reflexivity.
Qed.

Lemma loop_growth (n i k : nat) (messages m m' : list Message) :
  nth_error (states (tool_loop w n i messages)) k = Some m ->
  nth_error (states (tool_loop w n i messages)) (S k) = Some m' ->
  match llm_invoke w (i + k) m with
  | inl _ => m' = m
  | inr response =>
      List.length m' = List.length m + 1 + List.length (invoked (calls response)) /\
      (carries_tool_calls response = false ->
       m' = m ++ [AI response] /\
       nth_error (states (tool_loop w n i messages)) (S (S k)) = None)
  end.
Proof.
  intros Hk Hk'. pose proof (iteration_step n i k messages Hk Hk') as Hstep.
  destruct (llm_invoke w (i + k) m) as [e|response] eqn:E; [exact Hstep|].
  split.
  - rewrite Hstep, !length_app, pushed_length. simpl. lia.
  - intros C. split.
    + rewrite Hstep. unfold carries_tool_calls, calls in *.
      destruct (tool_calls response) as [[|c cs]|]; try discriminate;
        simpl; rewrite app_nil_r; reflexivity.
    + assert (Hlt : k < List.length (invocations (tool_loop w n i messages))).
      { apply nth_error_Some. unfold states in Hk'.
        destruct (Nat.lt_ge_cases k (List.length (invocations (tool_loop w n i messages))))
          as [H|H]; [|exfalso].
        - intros F. apply nth_error_None in F. lia.
        - rewrite nth_error_app2 in Hk' by lia.
          destruct (S k - _) as [|[|j]] eqn:D; try discriminate; lia. }
      assert (Hinv : nth_error (invocations (tool_loop w n i messages)) k = Some m).
      { unfold states in Hk. rewrite nth_error_app1 in Hk by exact Hlt. exact Hk. }
      pose proof (final_is_last n i k messages Hinv E C) as Hlen.
      apply nth_error_None. unfold states. rewrite length_app. simpl. lia.
Qed.

(** The conversation only grows: every state of a run opens with the
    conversation the loop started from, and the final conversation opens
    with every state. *)
Lemma states_extend (n i : nat) (messages m : list Message) :
  In m (states (tool_loop w n i messages)) ->
  (exists ext, m = messages ++ ext) /\
  (exists ext, conversation (tool_loop w n i messages) = m ++ ext).
Proof.
  revert i messages m. induction n as [|n IH]; intros i messages m.
  - simpl. intros [<-|[]]. split; exists []; rewrite app_nil_r; reflexivity.
  - iteration n i messages.
    + cbn. intros [<-|[<-|[]]]; split; exists []; rewrite app_nil_r; reflexivity.
    + set (next := (messages ++ [AI response])
                     ++ pushed (run_tool_calls w i 0 (calls response))).
      change (states _) with (messages :: states (tool_loop w n (S i) next)).
      cbv zeta. cbn [conversation]. fold next.
      assert (Hnext : exists ext, conversation (tool_loop w n (S i) next) = next ++ ext).
      { apply (IH (S i) next next).
        pose proof (states_head n (S i) next) as Hh.
        apply nth_error_In in Hh. exact Hh. }
      intros [<-|H].
      * split; [exists []; rewrite app_nil_r; reflexivity|].
        destruct Hnext as [ext Hext]. rewrite Hext. subst next.
        rewrite <- !app_assoc. eexists. reflexivity.
      * destruct (IH (S i) next m H) as [[ext Hext] Hc]. split; [|exact Hc].
        subst m next. rewrite <- !app_assoc. eexists. reflexivity.
    + cbn. intros [<-|[<-|[]]]; split.
      * exists []. rewrite app_nil_r. reflexivity.
      * eexists. reflexivity.
      * eexists. reflexivity.
      * exists []. rewrite app_nil_r. reflexivity.
Qed.

Lemma loop_keeps_start (n i : nat) (start m : list Message) :
  In m (states (tool_loop w n i start)) -> exists rest, m = start ++ rest.
Proof. intros H. apply (states_extend n i start m H). Qed.

Lemma conversation_well_matched (n i : nat) (messages : list Message) :
  well_matched messages ->
  well_matched (conversation (tool_loop w n i messages)).
Proof.
  revert i messages. induction n as [|n IH]; intros i messages Hm.
  - exact Hm.
  - iteration n i messages; cbn [conversation].
    + exact Hm.
    + cbv zeta. cbn [conversation]. apply IH.
      apply well_matched_app.
      * apply well_matched_app; [exact Hm|]. intros t [H|[]]. discriminate.
      * intros t Ht. apply pushed_ids in Ht.
        rewrite requested_ids_app. apply in_or_app. right.
        simpl. rewrite app_nil_r. exact Ht.
    + apply well_matched_app; [exact Hm|]. intros t [H|[]]. discriminate.
Qed.

Lemma loop_results_match_calls (n i : nat) (start : list Message) :
  well_matched start ->
  all_registered (conversation (tool_loop w n i start)) = true ->
  (forall m, In m (states (tool_loop w n i start)) -> well_matched m) /\
  (forall k m m',
      nth_error (invocations (tool_loop w n i start)) k = Some m ->
      nth_error (invocations (tool_loop w n i start)) (S k) = Some m' ->
      exists response results,
        llm_invoke w (i + k) m = inr response /\
        m' = m ++ AI response :: map Tool results /\
        map tool_call_id results = map call_id (calls response)).
Proof.
  intros Hstart Hall. split.
  - intros m Hm.
    destruct (states_extend n i start m Hm) as [_ [ext Hext]].
    apply well_matched_prefix with (ext := ext). rewrite <- Hext.
    apply conversation_well_matched. exact Hstart.
  - intros k m m' Hk Hk'.
    destruct (invocation_step n i k start Hk Hk') as [response [Hr Hm']].
    assert (Hin : In m' (states (tool_loop w n i start))).
    { unfold states. apply in_or_app. left. eapply nth_error_In; eauto. }
    destruct (states_extend n i start m' Hin) as [_ [ext Hext]].
    destruct (pushed_complete w (i + k) 0 (calls response)) as [results [Hp Hids]].
    { intros c Hc. unfold all_registered in Hall.
      rewrite forallb_forall in Hall.
      specialize (Hall (AI response)). cbv beta iota in Hall.
      rewrite forallb_forall in Hall. apply Hall; [|exact Hc].
      rewrite Hext, Hm'. rewrite <- !app_assoc.
      apply in_or_app. right. left. reflexivity. }
    exists response, results. split; [exact Hr|]. split; [|exact Hids].
    rewrite Hm', Hp, <- app_assoc. reflexivity.
Qed.

End Loop.

(** ** The adapters *)


Lemma unidentified_not_null (data : JSON) (key : jsstring) :
  unidentified data = true -> get key data = inr (prop key data).
Proof. destruct data; [discriminate|reflexivity..]. Qed.

Lemma unidentified_parts (data : JSON) :
  unidentified data = true ->
  match prop (js "Global Quote") data with
  | None => true
  | Some q => falsy (Some q) || falsy (prop (js "01. symbol") q)
  end = true /\
  falsy (prop (js "Symbol") data) = true /\
  falsy (prop (js "feed") data) = true.
Proof.
  destruct data; [discriminate|..]; unfold unidentified;
    rewrite !andb_true_iff; tauto.
Qed.




(* ===================================================================== *)
(** * The claims *)
(* ===================================================================== *)

(** ** C1: the iteration ceiling *)

(** C1.  Whatever the query and whatever the model replies, [runFinanceAgent]
    invokes the model at most 10 times.  When the 10th invocation happens
    and its reply still carries tool calls, the run returns the fixed text
    "I was unable to complete the research. Please try a simpler question."
    and the endpoint sends it in a 'message' frame, after the progress
    notice, with no 'error' frame. *)
Theorem runFinanceAgent_iteration_ceiling (w : World) (query : jsstring) :
  let r := runFinanceAgent w query in
  List.length (invocations r) <= 10 /\
  forall m response,
    nth_error (invocations r) 9 = Some m ->
    llm_invoke w 9 m = inr response ->
    carries_tool_calls response = true ->
    outcome r =
      inr (mkAgentResponse
             (js "I was unable to complete the research. Please try a simpler question.")) /\
    forall body s,
      prop (js "message") body = Some (JStr s) ->
      Js.trim s <> [] ->
      agent_input s = query ->
      POST w (inr body) =
      mkResponse (Normal tt)
        [mkStreamMessage thought (js "Researching...");
         mkStreamMessage answer
           (js "I was unable to complete the research. Please try a simpler question.")]
        true (Some r).
Proof.
  intros r. split.
  - subst r. unfold runFinanceAgent.
    destruct (getOpenAIKey w); [simpl; lia|]. apply invocations_bound.
  - intros m response Hm Hr Hc.
    assert (Ho : outcome r = inr (mkAgentResponse FALLBACK)).
    { subst r. unfold runFinanceAgent in *.
      destruct (getOpenAIKey w); [discriminate|].
      eapply last_iteration_fallback with (k := 9); eauto. }
    split; [exact Ho|].
    intros body s Hb Ht Hq.
    rewrite (POST_accepted w body (s := s)).
    + cbv zeta. rewrite Hq. fold r. rewrite Ho. reflexivity.
    + rewrite Hb. apply accepted_trim. exact Ht.
Qed.

Lemma runFinanceAgent_iteration_ceiling_witness :
  frames (POST insistent_world (request_with (js " hi "))) =
  [mkStreamMessage thought (js "Researching...");
   mkStreamMessage answer
     (js "I was unable to complete the research. Please try a simpler question.")].
Proof.
  pose (m := nth 9 (invocations (runFinanceAgent insistent_world (js "hi"))) []).
  pose (response := mkAIMessage [] (Some [call "get_stock_quote" "nvda" "call_1"])).
  destruct (proj2 (runFinanceAgent_iteration_ceiling insistent_world (js "hi")) m response)
    as [_ H].
  - vm_compute. reflexivity.
  - reflexivity.
  - reflexivity.
  - unfold request_with.
    rewrite (H (JObj [(js "message", JStr (js " hi "))]) (js " hi ")).
    + reflexivity.
    + reflexivity.
    + vm_compute. discriminate.
    + vm_compute. reflexivity.
Defined.

(** ** C2: one terminal frame *)

(** C2.  What the reader of the response receives, for every request.
    When the message is accepted, the reader receives, whenever it reads,
    the progress notice, then one terminal frame (the 'message' frame of
    the answer, or one 'error' frame when the agent threw), then the end of
    the stream.  For every other request (a body that cannot be read,
    [null], no usable message) [start] enqueues one 'error' frame, closes
    and returns, and the [close()] of its [finally] block then throws: the
    promise of [start] rejects.  A reader whose read was pending has the
    frame and the end of the stream by then.  A reader that comes later
    receives no frame: the stream has dropped the frame it held, and the
    read rejects with the error of the second [close()]. *)
Theorem terminal_frame_delivery (w : World) (request_json : Result JSON) :
  (exists body s terminal,
      request_json = inr body /\
      accepted (prop (js "message") body) = Some s /\
      run (POST w request_json) = Some (runFinanceAgent w (agent_input s)) /\
      (type terminal = answer \/ type terminal = error) /\
      forall reader,
        consume reader (POST w request_json)
        = mkReceived [researching; terminal] EndOfStream) \/
  (exists text,
      (text = js "Invalid request body" \/ text = js "Please provide a message") /\
      run (POST w request_json) = None /\
      settled (POST w request_json) = Thrown CLOSED /\
      consume Waiting (POST w request_json)
      = mkReceived [mkStreamMessage error text] EndOfStream /\
      consume Late (POST w request_json) = mkReceived [] (StreamError CLOSED)).
Proof.
  destruct (request_cases w request_json)
    as [[text [Ht HP]]|[body [s [Hr [Hm [Hs HP]]]]]].
  - right. exists text. rewrite HP. repeat split. exact Ht.
  - left.
    exists body, s,
      (match outcome (runFinanceAgent w (agent_input s)) with
       | inr result => mkStreamMessage answer (output result)
       | inl err => failure_frame err
       end).
    rewrite HP. split; [exact Hr|]. split.
    { rewrite Hm. apply accepted_trim. exact Hs. }
    split; [reflexivity|]. split.
    + destruct (outcome (runFinanceAgent w (agent_input s))) as [err|result];
        [right|left]; reflexivity.
    + intros reader. unfold consume. cbn [settled frames closed]. reflexivity.
Qed.

(** ** C3: a tool name outside the registry *)

(** C3.  A requested tool call whose name is none of get_stock_quote,
    get_company_info and get_company_news yields no tool result: its
    callback returns nothing, no tool runs for it, and the iteration goes on
    to the next one with the conversation extended by the assistant turn
    and the results of the other calls only. *)
Theorem unknown_tool_is_dropped
    (w : World) (n i : nat) (messages : list Message) (response : AIMessage)
    (before after : list ToolCall) (toolCall : ToolCall) :
  call_name toolCall <> js "get_stock_quote" ->
  call_name toolCall <> js "get_company_info" ->
  call_name toolCall <> js "get_company_news" ->
  llm_invoke w i messages = inr response ->
  tool_calls response = Some (before ++ toolCall :: after) ->
  run_tool_call w i (List.length before) toolCall = None /\
  tool_loop w (S n) i messages =
  (let rest :=
     tool_loop w n (S i)
       (messages ++ AI response ::
          pushed (run_tool_calls w i 0 before)
          ++ pushed (run_tool_calls w i (S (List.length before)) after)) in
   mkRun (outcome rest) (conversation rest)
         (messages :: invocations rest)
         (invoked before ++ invoked after ++ executions rest)).
Proof.
  intros H1 H2 H3 Hr Hc.
  assert (Hf : find_tool (call_name toolCall) = None)
    by (apply find_tool_unknown; assumption).
  assert (Hnone : forall j, run_tool_call w i j toolCall = None).
  { intros j. unfold run_tool_call. rewrite Hf. reflexivity. }
  split; [apply Hnone|].
  rewrite (tool_loop_continues w n i messages Hr).
  - unfold calls. rewrite Hc. cbv zeta.
    rewrite run_tool_calls_app, pushed_app. cbn [run_tool_calls pushed].
    rewrite Hnone. cbn [pushed].
    unfold invoked. rewrite filter_app. cbn [filter]. rewrite Hf.
    rewrite <- !app_assoc. cbn [app Nat.add].
    reflexivity.
  - unfold carries_tool_calls. rewrite Hc. destruct before; reflexivity.
Qed.

Lemma unknown_tool_is_dropped_witness :
  run_tool_call inventive_world 0 0 (call "get_weather" "nvda" "call_0") = None /\
  List.length (conversation (runFinanceAgent inventive_world (js "NVDA?"))) = 5.
Proof.
  destruct (unknown_tool_is_dropped inventive_world 9 0
              [System (FINANCE_AGENT_SYSTEM_PROMPT inventive_world); Human (js "NVDA?")]
              (response := mkAIMessage []
                 (Some [call "get_weather" "nvda" "call_0";
                        call "get_stock_quote" "nvda" "call_1"]))
              [] [call "get_stock_quote" "nvda" "call_1"]
              (call "get_weather" "nvda" "call_0")) as [H1 H2].
  - vm_compute. discriminate.
  - vm_compute. discriminate.
  - vm_compute. discriminate.
  - reflexivity.
  - reflexivity.
  - split; [exact H1|].
    change (runFinanceAgent inventive_world (js "NVDA?"))
      with (tool_loop inventive_world 10 0
              [System (FINANCE_AGENT_SYSTEM_PROMPT inventive_world); Human (js "NVDA?")]).
    rewrite H2. vm_compute. reflexivity.
Defined.

(** ** C4: tool results answer tool calls *)

(** C4.  In a run whose requested tool names are all in the registry, every
    tool result of the conversation is preceded in it by a tool call with
    its identifier (at every state of the run: there is no orphan result),
    and what the model is given in iteration N+1 is the conversation of
    iteration N, the assistant turn of N, and one result for each call of
    that turn, all of them appended before the invocation. *)
Theorem tool_results_match_calls (w : World) (query : jsstring) :
  let r := runFinanceAgent w query in
  all_registered (conversation r) = true ->
  (forall m, In m (states r) -> well_matched m) /\
  (forall k m m',
      nth_error (invocations r) k = Some m ->
      nth_error (invocations r) (S k) = Some m' ->
      exists response results,
        llm_invoke w k m = inr response /\
        m' = m ++ AI response :: map Tool results /\
        map tool_call_id results = map call_id (calls response)).
Proof.
  intros r Hall. subst r. unfold runFinanceAgent in *.
  destruct (getOpenAIKey w) as [e|key].
  - split.
    + intros m [<-|[]] pre t post E. destruct pre; discriminate.
    + intros k m m' H. destruct k; discriminate.
  - apply (loop_results_match_calls w maxIterations 0); [|exact Hall].
    apply initial_well_matched.
Qed.

Lemma tool_results_match_calls_witness :
  well_matched (conversation (runFinanceAgent parallel_world (js "NVDA?"))).
Proof.
  apply (proj1 (tool_results_match_calls parallel_world (js "NVDA?") eq_refl)).
  apply in_or_app. right. left. reflexivity.
Defined.

(** ** C5: the adapters turn failures into text *)




(** ** C6: the article count *)




(** ** C7: truncation *)

(** C7, as far as it holds.  A request whose message is longer than 500
    code units behaves (frames, closing, input and run of the agent) as the
    request whose message is the truncated text, when that text does not
    end in white space. *)
Theorem truncation_is_idempotent (w : World) (body body' : JSON) (s : jsstring) :
  prop (js "message") body = Some (JStr s) ->
  500 < List.length s ->
  ends_clean (agent_input s) = true ->
  prop (js "message") body' = Some (JStr (agent_input s)) ->
  List.length (agent_input s) <= 500 /\
  POST w (inr body') = POST w (inr body).
Proof.
  intros Hb Hlen Hend Hb'. split.
  { unfold agent_input, Js.slice0. rewrite length_firstn. lia. }
  destruct (agent_input_fixed s Hend) as [Ht Hfix].
  destruct (Js.trim s) as [|c r] eqn:E.
  - assert (Hin : agent_input s = []).
    { unfold agent_input. rewrite E. reflexivity. }
    rewrite Hin in Hb'.
    rewrite !POST_rejected; try reflexivity.
    + eapply prop_not_null; eauto.
    + rewrite Hb. unfold accepted. rewrite E. reflexivity.
    + eapply prop_not_null; eauto.
    + rewrite Hb'. reflexivity.
  - assert (Hne : agent_input s <> []).
    { unfold agent_input. rewrite E. discriminate. }
    rewrite (POST_accepted w body (s := s)).
    + rewrite (POST_accepted w body' (s := agent_input s)).
      * rewrite Hfix. reflexivity.
      * rewrite Hb'. apply accepted_trim. rewrite Ht. exact Hne.
    + rewrite Hb. apply accepted_trim. rewrite E. discriminate.
Qed.

Lemma truncation_is_idempotent_witness :
  POST echo_world (request_with (repeat 97%N 500))
  = POST echo_world (request_with (repeat 97%N 501)).
Proof.
  apply (truncation_is_idempotent echo_world
           (JObj [(js "message", JStr (repeat 97%N 501))])
           (JObj [(js "message", JStr (repeat 97%N 500))])
           (s := repeat 97%N 501)).
  - reflexivity.
  - apply Nat.ltb_lt. vm_compute. reflexivity.
  - vm_compute. reflexivity.
  - vm_compute. reflexivity.
Defined.

(** The message of 499 letters, a space and a letter is truncated to 499
    letters and a space; sent as the message of a request, that text is
    trimmed to the 499 letters, and the model is asked another question. *)
Lemma truncation_exposes_white_space :
  500 < List.length long_message /\
  frames (POST echo_world (request_with (agent_input long_message)))
  <> frames (POST echo_world (request_with long_message)).
Proof.
  split.
  - apply Nat.ltb_lt. vm_compute. reflexivity.
  - intros H.
    apply (f_equal (map (fun f => List.length (payload f)))) in H.
    vm_compute in H. discriminate.
Qed.

(** ** C8: how the conversation grows *)

(** C8, as the loop has it.  An iteration in which the model replies grows
    the conversation by the assistant turn and by one result for each
    requested call that names a tool of the registry: by two entries only
    when there is exactly one such call.  The iteration whose assistant turn
    carries no tool call adds that turn alone and is the last one.  (An
    iteration in which the model invocation throws adds nothing.) *)
Theorem conversation_growth (w : World) (query : jsstring) (k : nat)
    (m m' : list Message) :
  nth_error (states (runFinanceAgent w query)) k = Some m ->
  nth_error (states (runFinanceAgent w query)) (S k) = Some m' ->
  match llm_invoke w k m with
  | inl _ => m' = m
  | inr response =>
      List.length m' = List.length m + 1 + List.length (invoked (calls response)) /\
      (carries_tool_calls response = false ->
       m' = m ++ [AI response] /\
       nth_error (states (runFinanceAgent w query)) (S (S k)) = None)
  end.
Proof.
  unfold runFinanceAgent. destruct (getOpenAIKey w) as [e|key].
  - destruct k; discriminate.
  - apply (loop_growth w maxIterations 0 k).
Qed.

Lemma conversation_growth_witness :
  let r := runFinanceAgent inventive_world (js "NVDA?") in
  List.length (nth 1 (states r) []) = List.length (nth 0 (states r) []) + 1 + 1.
Proof.
  intros r.
  exact (proj1 (conversation_growth inventive_world (js "NVDA?") 0
                  (m := nth 0 (states r) []) (m' := nth 1 (states r) [])
                  eq_refl eq_refl)).
Defined.

(** A turn that asks for two registered tools grows the conversation by
    three entries. *)
Lemma two_calls_grow_by_three :
  map (@List.length Message) (states (runFinanceAgent parallel_world (js "NVDA?")))
  = [2; 5; 6] /\
  ~ (forall k m m',
        nth_error (states (runFinanceAgent parallel_world (js "NVDA?"))) k = Some m ->
        nth_error (states (runFinanceAgent parallel_world (js "NVDA?"))) (S k) = Some m' ->
        carries_tool_calls
          (mkAIMessage [] (Some [call "get_stock_quote" "nvda" "call_1";
                                 call "get_company_info" "nvda" "call_2"])) = true ->
        List.length m' = List.length m + 2).
Proof.
  split; [vm_compute; reflexivity|].
  intros H.
  specialize (H 0 _ _ eq_refl eq_refl eq_refl). vm_compute in H. discriminate.
Qed.

(** ** C9: requests without a message; the system instructions *)

(** C9, as the endpoint has it.  For a body that is a JSON value other than
    [null] and whose message is absent, not a string or the empty string,
    the agent is not run (no model invocation, no tool execution), [start]
    enqueues exactly one frame, the error frame "Please provide a message",
    and whenever the reader reads, it receives no frame but this one, and
    not more than once.  For a body that cannot be read as JSON, or that is
    [null], the same holds with the error frame "Invalid request body".
    When the loop runs, every state of the conversation opens with the
    system instructions and the user's question, and each state extends the
    one before it. *)
Theorem missing_message_is_rejected (w : World) :
  (forall body,
      body <> JNull ->
      no_message (prop (js "message") body) = true ->
      run (POST w (inr body)) = None /\
      frames (POST w (inr body)) = [please_provide] /\
      forall reader,
        received (consume reader (POST w (inr body))) = [please_provide] \/
        received (consume reader (POST w (inr body))) = []) /\
  Js.includes (js "provide a message") (payload please_provide) = true /\
  (forall request_json,
      request_json = inr JNull \/ (exists e, request_json = inl e) ->
      run (POST w request_json) = None /\
      frames (POST w request_json)
      = [mkStreamMessage error (js "Invalid request body")] /\
      forall reader,
        received (consume reader (POST w request_json))
        = [mkStreamMessage error (js "Invalid request body")] \/
        received (consume reader (POST w request_json)) = []) /\
  (forall query key m,
      getOpenAIKey w = inr key ->
      In m (states (runFinanceAgent w query)) ->
      exists rest,
        m = System (FINANCE_AGENT_SYSTEM_PROMPT w) :: Human query :: rest) /\
  (forall query k m m',
      nth_error (states (runFinanceAgent w query)) k = Some m ->
      nth_error (states (runFinanceAgent w query)) (S k) = Some m' ->
      exists ext, m' = m ++ ext).
Proof.
  repeat match goal with |- _ /\ _ => split end.
  - intros body Hnull Hno.
    assert (HP : POST w (inr body)
                 = mkResponse (Thrown CLOSED) [please_provide] true None).
    { apply POST_rejected; [exact Hnull|].
      destruct (prop (js "message") body) as [[ | b | q | [|c s] | l | f]|];
        try reflexivity. discriminate. }
    rewrite HP. repeat split. intros [|]; [left|right]; reflexivity.
  - reflexivity.
  - intros request_json H.
    assert (HP : POST w request_json
                 = mkResponse (Thrown CLOSED)
                     [mkStreamMessage error (js "Invalid request body")] true None).
    { destruct H as [->|[e ->]]; reflexivity. }
    rewrite HP. repeat split. intros [|]; [left|right]; reflexivity.
  - intros query key m K. unfold runFinanceAgent. rewrite K. intros Hm.
    destruct (loop_keeps_start w maxIterations 0 _ m Hm) as [rest ->].
    exists rest. reflexivity.
  - intros query k m m'. unfold runFinanceAgent.
    destruct (getOpenAIKey w) as [e|key].
    { destruct k; discriminate. }
    intros Hk Hk'.
    pose proof (iteration_step w maxIterations 0 k _ Hk Hk') as Hstep.
    destruct (llm_invoke w (0 + k) m).
    + exists []. rewrite app_nil_r. exact Hstep.
    + rewrite Hstep, <- app_assoc. eexists. reflexivity.
Qed.

Lemma missing_message_is_rejected_witness :
  run (POST unknown_world (inr (JObj [(js "query", JStr (js "NVDA?"))]))) = None /\
  frames (POST unknown_world (inr (JObj [(js "query", JStr (js "NVDA?"))])))
  = [please_provide].
Proof.
  destruct (proj1 (missing_message_is_rejected unknown_world)
              (JObj [(js "query", JStr (js "NVDA?"))])) as [Hr [Hf _]].
  - discriminate.
  - reflexivity.
  - split; [exact Hr|exact Hf].
Defined.

(** The body [null] lacks a message and is answered with another frame:
    the one frame enqueued is "Invalid request body", and no reader
    receives a frame that contains "provide a message". *)
Lemma null_body_is_invalid :
  frames (POST unknown_world (inr JNull))
  = [mkStreamMessage error (js "Invalid request body")] /\
  existsb (fun f => Js.includes (js "provide a message") (payload f))
          (frames (POST unknown_world (inr JNull))) = false /\
  consume Waiting (POST unknown_world (inr JNull))
  = mkReceived [mkStreamMessage error (js "Invalid request body")] EndOfStream /\
  (forall reader,
      existsb (fun f => Js.includes (js "provide a message") (payload f))
              (received (consume reader (POST unknown_world (inr JNull)))) = false).
Proof. repeat split. intros [|]; reflexivity. Qed.

(** ** C10: a message of white space *)

(** C10.  A request whose message is made of white space only (the code
    units [trim] removes) is handled as the request whose message is the
    empty string, call for call, so no reader can tell the two apart, and
    the agent is not run.  What the two requests get is what every rejected
    request gets: a reader whose read was pending receives the error frame
    "Please provide a message" and the end of the stream; a reader that
    comes after [start] has settled receives no frame, and its read rejects
    with the error of the second [close()]. *)
Theorem blank_message_is_rejected (w : World) (body : JSON) (s : jsstring) :
  prop (js "message") body = Some (JStr s) ->
  forallb Js.isWhiteSpace s = true ->
  POST w (inr body) = POST w (request_with []) /\
  (forall reader,
      consume reader (POST w (inr body)) = consume reader (POST w (request_with []))) /\
  run (POST w (inr body)) = None /\
  consume Waiting (POST w (inr body)) = mkReceived [please_provide] EndOfStream /\
  consume Late (POST w (inr body)) = mkReceived [] (StreamError CLOSED).
Proof.
  intros Hb Hs.
  assert (H : POST w (inr body) =
              mkResponse (Thrown CLOSED) [please_provide] true None).
  { apply POST_rejected.
    - eapply prop_not_null; eauto.
    - rewrite Hb. unfold accepted.
      apply trim_nil_iff in Hs. rewrite Hs. reflexivity. }
  rewrite H. repeat split.
Qed.

Lemma blank_message_is_rejected_witness :
  POST echo_world (request_with [32%N; 9%N; 10%N; 160%N]) =
  POST echo_world (request_with []) /\
  consume Late (POST echo_world (request_with [32%N; 9%N; 10%N; 160%N]))
  = mkReceived [] (StreamError CLOSED).
Proof.
  destruct (blank_message_is_rejected echo_world
              (JObj [(js "message", JStr [32%N; 9%N; 10%N; 160%N])])
              (s := [32%N; 9%N; 10%N; 160%N])) as [H1 [_ [_ [_ H2]]]].
  - reflexivity.
  - reflexivity.
  - split; [exact H1|exact H2].
Defined.

(* ===================================================================== *)
(** * Further properties of the code *)
(* ===================================================================== *)

(** ** More on strings *)

Lemma trim_ends_clean (s : jsstring) : ends_clean (Js.trim s) = true.
Proof.
  unfold ends_clean, Js.trim, Js.trimEnd. rewrite rev_involutive.
  destruct (Js.trimStart (rev (Js.trimStart s))) as [|c r] eqn:E; [reflexivity|].
  rewrite (@trimStart_head (rev (Js.trimStart s)) r c E). reflexivity.
Qed.

Lemma trim_idempotent (s : jsstring) : Js.trim (Js.trim s) = Js.trim s.
Proof.
  unfold Js.trim at 1.
  assert (H : Js.trimStart (Js.trim s) = Js.trim s).
  { destruct (trim_head s) as [E|[c [r [E Hc]]]]; rewrite E.
    - reflexivity.
    - apply trimStart_clean. exact Hc. }
  rewrite H. apply trimEnd_clean. apply trim_ends_clean.
Qed.

(** ** More on the loop *)

Section LoopOutcomes.

Variable w : World.

Ltac loop_cases n i messages :=
  let E := fresh "E" in
  let C := fresh "C" in
  let e := fresh "e" in
  let response := fresh "response" in
  destruct (llm_invoke w i messages) as [e|response] eqn:E;
  [ rewrite (tool_loop_throws w n i messages E)
  | destruct (carries_tool_calls response) eqn:C;
    [ rewrite (tool_loop_continues w n i messages E C)
    | rewrite (tool_loop_final w n i messages E C) ] ].

(** A loop that throws rethrows what a model invocation threw, and leaves
    the conversation as that invocation saw it. *)
Lemma loop_throws_from_model (n i : nat) (messages : list Message) (err : Error) :
  outcome (tool_loop w n i messages) = inl err ->
  exists k m,
    nth_error (invocations (tool_loop w n i messages)) k = Some m /\
    llm_invoke w (i + k) m = inl err /\
    conversation (tool_loop w n i messages) = m.
Proof.
  revert i messages. induction n as [|n IH]; intros i messages.
  - discriminate.
  - loop_cases n i messages; cbv zeta; cbn [outcome invocations conversation].
    + intros H. injection H as <-. exists 0, messages.
      rewrite Nat.add_0_r. auto.
    + intros H. destruct (IH _ _ H) as [k [m [Hk [Hl Hc]]]].
      exists (S k), m. cbn [nth_error]. repeat split; auto.
      rewrite <- Hl. f_equal. lia.
    + discriminate.
Qed.

(** A loop that returns gives the text of an assistant turn without tool
    calls, the last message of the conversation, or the fallback after all
    its iterations. *)
Lemma loop_returns (n i : nat) (messages : list Message) (result : AgentResponse) :
  outcome (tool_loop w n i messages) = inr result ->
  (exists before a,
      conversation (tool_loop w n i messages) = before ++ [AI a] /\
      carries_tool_calls a = false /\
      output result = content a) \/
  (output result = FALLBACK /\
   List.length (invocations (tool_loop w n i messages)) = n).
Proof.
  revert i messages. induction n as [|n IH]; intros i messages.
  - intros H. injection H as <-. right. split; reflexivity.
  - loop_cases n i messages; cbv zeta; cbn [outcome invocations conversation].
    + discriminate.
    + intros H. destruct (IH _ _ H) as [L|[Hf Hl]]; [left; exact L|right].
      split; [exact Hf|]. cbn [List.length]. rewrite Hl. reflexivity.
    + intros H. injection H as <-. left. exists messages, response. auto.
Qed.

(** One result in the conversation for each tool that ran, and no other. *)
Lemma loop_results_count (n i : nat) (messages : list Message) :
  List.length (filter is_tool (conversation (tool_loop w n i messages))) =
  List.length (filter is_tool messages)
  + List.length (executions (tool_loop w n i messages)).
Proof.
  revert i messages. induction n as [|n IH]; intros i messages.
  - simpl. lia.
  - loop_cases n i messages; cbv zeta; cbn [executions conversation].
    + simpl. lia.
    + rewrite IH, !filter_app, !length_app. cbn [filter is_tool List.length].
      assert (H : filter is_tool (pushed (run_tool_calls w i 0 (calls response)))
                  = pushed (run_tool_calls w i 0 (calls response))).
      { generalize (run_tool_calls w i 0 (calls response)).
        induction l as [|[t|] l IHl]; simpl; congruence. }
      rewrite H, pushed_length. lia.
    + rewrite filter_app, length_app. simpl. lia.
Qed.

End LoopOutcomes.

(** ** The agent runner *)

(** X1.  A run of the agent throws only what the key check or a model
    invocation threw: a failing tool never makes the run throw.  When the
    key check throws, no model was invoked and no tool ran; when an
    invocation throws, the conversation is left as that invocation saw it. *)
Theorem run_errors_come_from_the_model (w : World) (query : jsstring) (err : Error) :
  outcome (runFinanceAgent w query) = inl err ->
  (getOpenAIKey w = inl err /\
   invocations (runFinanceAgent w query) = [] /\
   executions (runFinanceAgent w query) = []) \/
  (exists k m,
      nth_error (invocations (runFinanceAgent w query)) k = Some m /\
      llm_invoke w k m = inl err /\
      conversation (runFinanceAgent w query) = m).
Proof.
  unfold runFinanceAgent. destruct (getOpenAIKey w) as [e|key].
  - cbn. intros H. injection H as <-. left. auto.
  - intros H. right. apply (loop_throws_from_model w maxIterations 0 _ H).
Qed.

Lemma run_errors_come_from_the_model_witness :
  getOpenAIKey (without_openai_key echo_world)
  = inl (mkError (js "OPENAI_API_KEY is not set." ++ LF ++
                  js "Get a key at: https://platform.openai.com/api-keys" ++ LF ++
                  js "Then add it to your .env.local file.")).
Proof.
  destruct (run_errors_come_from_the_model (without_openai_key echo_world) (js "hi")
              (err := mkError (js "OPENAI_API_KEY is not set." ++ LF ++
                               js "Get a key at: https://platform.openai.com/api-keys" ++ LF ++
                               js "Then add it to your .env.local file.")) eq_refl)
    as [[H _]|[k [m [H _]]]].
  - exact H.
  - destruct k; discriminate H.
Defined.

(** X2.  What a run returns is the text of its last assistant turn, which
    carries no tool call and closes the conversation, or it is the fallback
    text after exactly 10 model invocations. *)
Theorem run_output_origin (w : World) (query : jsstring) (result : AgentResponse) :
  outcome (runFinanceAgent w query) = inr result ->
  (exists before a,
      conversation (runFinanceAgent w query) = before ++ [AI a] /\
      carries_tool_calls a = false /\
      output result = content a) \/
  (output result =
     js "I was unable to complete the research. Please try a simpler question." /\
   List.length (invocations (runFinanceAgent w query)) = 10).
Proof.
  unfold runFinanceAgent. destruct (getOpenAIKey w) as [e|key]; [discriminate|].
  apply loop_returns.
Qed.

Lemma run_output_origin_witness :
  List.length (invocations (runFinanceAgent insistent_world (js "hi"))) = 10.
Proof.
  destruct (run_output_origin insistent_world (js "hi")
              (result := mkAgentResponse FALLBACK) eq_refl)
    as [[before [a [Hc _]]]|[_ H]].
  - exfalso. apply (f_equal (@rev Message)) in Hc. rewrite rev_app_distr in Hc.
    cbn [rev app] in Hc. vm_compute in Hc. discriminate Hc.
  - exact H.
Defined.

(** X3.  The tool results of the final conversation are as many as the
    tools that ran: each execution leaves one result and nothing else adds
    one (a call to a tool outside the registry leaves none). *)
Theorem results_count_executions (w : World) (query : jsstring) :
  List.length (filter is_tool (conversation (runFinanceAgent w query))) =
  List.length (executions (runFinanceAgent w query)).
Proof.
  unfold runFinanceAgent. destruct (getOpenAIKey w) as [e|key]; [reflexivity|].
  rewrite loop_results_count. reflexivity.
Qed.

(** ** The endpoint *)

(** X4.  Without an OpenAI key (unset or empty) an accepted message still
    gets the progress notice; then the run throws before any model
    invocation or tool execution, and the stream ends with the error frame
    "OpenAI API key is not configured.". *)
Theorem missing_openai_key (w : World) (body : JSON) (s : jsstring) :
  OPENAI_API_KEY w = None \/ OPENAI_API_KEY w = Some [] ->
  prop (js "message") body = Some (JStr s) ->
  Js.trim s <> [] ->
  frames (POST w (inr body)) =
    [mkStreamMessage thought (js "Researching...");
     mkStreamMessage error (js "OpenAI API key is not configured.")] /\
  closed (POST w (inr body)) = true /\
  exists r, run (POST w (inr body)) = Some r /\
            invocations r = [] /\ executions r = [] /\ conversation r = [].
Proof.
  intros Hk Hb Ht.
  rewrite (POST_accepted w body (s := s)) by (rewrite Hb; apply accepted_trim; exact Ht).
  cbv zeta. unfold runFinanceAgent, getOpenAIKey.
  destruct Hk as [-> | ->]; cbn; repeat split; eexists; repeat split.
Qed.

Lemma missing_openai_key_witness :
  frames (POST (without_openai_key echo_world) (request_with (js "NVDA?"))) =
    [mkStreamMessage thought (js "Researching...");
     mkStreamMessage error (js "OpenAI API key is not configured.")].
Proof.
  apply (missing_openai_key (without_openai_key echo_world)
           (JObj [(js "message", JStr (js "NVDA?"))]) (s := js "NVDA?")).
  - left. reflexivity.
  - reflexivity.
  - vm_compute. discriminate.
Defined.

(** X5.  With the OpenAI key set and a model that does not throw, an
    accepted message always ends in a 'message' frame after the progress
    notice, whatever the market-data service and the tools do. *)
Theorem tool_failures_never_fail_the_request
    (w : World) (body : JSON) (s key : jsstring) :
  prop (js "message") body = Some (JStr s) ->
  Js.trim s <> [] ->
  getOpenAIKey w = inr key ->
  (forall k m e,
      nth_error (invocations (runFinanceAgent w (agent_input s))) k = Some m ->
      llm_invoke w k m <> inl e) ->
  exists text,
    frames (POST w (inr body)) =
      [mkStreamMessage thought (js "Researching..."); mkStreamMessage answer text].
Proof.
  intros Hb Ht Hk Hm.
  rewrite (POST_accepted w body (s := s)) by (rewrite Hb; apply accepted_trim; exact Ht).
  cbv zeta. cbn [frames].
  destruct (outcome (runFinanceAgent w (agent_input s))) as [err|result] eqn:O.
  - exfalso.
    destruct (run_errors_come_from_the_model w (agent_input s) O)
      as [[H _]|[k [m [H1 [H2 _]]]]].
    + congruence.
    + exact (Hm k m err H1 H2).
  - eexists. reflexivity.
Qed.

Lemma tool_failures_never_fail_the_request_witness :
  exists text,
    frames (POST (without_alpha_vantage_key inventive_world) (request_with (js "NVDA?"))) =
      [mkStreamMessage thought (js "Researching..."); mkStreamMessage answer text].
Proof.
  apply (tool_failures_never_fail_the_request (without_alpha_vantage_key inventive_world)
           (JObj [(js "message", JStr (js "NVDA?"))])
           (s := js "NVDA?") (key := js "sk-test")).
  - reflexivity.
  - vm_compute. discriminate.
  - reflexivity.
  - intros k m e _. destruct k; discriminate.
Defined.

(** X6.  A request goes one of two ways.  Either it fails the checks: the
    stream carries the one error frame, the agent is never started, and
    [start] rejects, because the early return has closed the controller and
    the [finally] block closes it again.  Or the agent is started: the
    progress notice "Researching..." comes first, one 'message' or 'error'
    frame follows, and [start] resolves. *)
Theorem request_dichotomy (w : World) (request_json : Result JSON) :
  (run (POST w request_json) = None /\
   settled (POST w request_json) = Thrown CLOSED /\
   exists text, frames (POST w request_json) = [mkStreamMessage error text]) \/
  (exists r terminal,
      run (POST w request_json) = Some r /\
      settled (POST w request_json) = Normal tt /\
      frames (POST w request_json)
        = [mkStreamMessage thought (js "Researching..."); terminal] /\
      type terminal <> thought).
Proof.
  destruct (request_cases w request_json) as [[text [_ H]]|[body [s [_ [_ [_ H]]]]]];
    rewrite H; cbn [run settled frames].
  - left. repeat split. eexists. reflexivity.
  - right. do 2 eexists. repeat split.
    destruct (outcome (runFinanceAgent w (agent_input s))); discriminate.
Qed.

(** X7.  No frame carries the message of a thrown error: the text of an
    error frame is one of five fixed texts, and the text of a progress
    notice is "Researching...". *)
Theorem error_frames_carry_fixed_texts (w : World) (request_json : Result JSON) :
  Forall (fun f =>
            match type f with
            | error => In (payload f) error_texts
            | thought => payload f = js "Researching..."
            | answer => True
            end)
         (frames (POST w request_json)).
Proof.
  destruct (request_cases w request_json)
    as [[text [[-> | ->] H]]|[body [s [_ [_ [_ H]]]]]];
    rewrite H; cbn [frames].
  - repeat constructor.
  - constructor; [right; left; reflexivity|constructor].
  - constructor; [reflexivity|]. constructor; [|constructor].
    destruct (outcome (runFinanceAgent w (agent_input s))) as [err|result];
      [|exact I].
    unfold failure_frame. cbn [type payload].
    destruct (Js.includes (js "OPENAI_API_KEY") (message err)).
    + do 2 right. left. reflexivity.
    + destruct (Js.includes (js "ALPHA_VANTAGE_API_KEY") (message err)).
      * do 3 right. left. reflexivity.
      * do 4 right. left. reflexivity.
Qed.

(** X8.  The question the agent is started with is never empty, holds at
    most 500 code units and does not open with white space; unless the
    OpenAI key is missing, it is the user turn that follows the system
    instructions in the conversation. *)
Theorem agent_question_is_bounded (w : World) (request_json : Result JSON) :
  match run (POST w request_json) with
  | None => True
  | Some r =>
      exists query,
        r = runFinanceAgent w query /\
        1 <= List.length query <= 500 /\
        (exists c rest, query = c :: rest /\ Js.isWhiteSpace c = false) /\
        ((exists e, getOpenAIKey w = inl e /\ conversation r = []) \/
         (exists later,
             conversation r
             = System (FINANCE_AGENT_SYSTEM_PROMPT w) :: Human query :: later))
  end.
Proof.
  destruct (request_cases w request_json) as [[text [_ H]]|[body [s [_ [_ [Ht H]]]]]];
    rewrite H; cbn [run]; [exact I|].
  exists (agent_input s). split; [reflexivity|].
  assert (Hq : exists c rest, agent_input s = c :: rest /\ Js.isWhiteSpace c = false).
  { unfold agent_input, Js.slice0.
    destruct (trim_head s) as [E|[c [r [E Hc]]]]; [contradiction|].
    rewrite E. cbn [firstn]. eauto. }
  split; [|split; [exact Hq|]].
  - destruct Hq as [c [rest [E _]]]. split.
    + rewrite E. simpl. lia.
    + unfold agent_input, Js.slice0. rewrite length_firstn. lia.
  - unfold runFinanceAgent. destruct (getOpenAIKey w) as [e|key].
    + left. exists e. split; reflexivity.
    + right.
      set (start := [System (FINANCE_AGENT_SYSTEM_PROMPT w); Human (agent_input s)]).
      destruct (loop_keeps_start w maxIterations 0 start
                  (conversation (tool_loop w maxIterations 0 start))) as [later ->].
      * unfold states. apply in_or_app. right. left. reflexivity.
      * exists later. reflexivity.
Qed.

(** X9.  When the model answers the first invocation without asking for a
    tool, the endpoint sends the progress notice and then the reply's text
    in a 'message' frame; the model was invoked once, no tool ran, and the
    conversation is the system instructions, the question and the reply. *)
Theorem direct_answer (w : World) (body : JSON) (s key : jsstring) (a : AIMessage) :
  prop (js "message") body = Some (JStr s) ->
  Js.trim s <> [] ->
  getOpenAIKey w = inr key ->
  llm_invoke w 0 [System (FINANCE_AGENT_SYSTEM_PROMPT w); Human (agent_input s)] = inr a ->
  carries_tool_calls a = false ->
  POST w (inr body) =
  mkResponse (Normal tt)
    [mkStreamMessage thought (js "Researching...");
     mkStreamMessage answer (content a)]
    true
    (Some (mkRun (inr (mkAgentResponse (content a)))
                 [System (FINANCE_AGENT_SYSTEM_PROMPT w); Human (agent_input s); AI a]
                 [[System (FINANCE_AGENT_SYSTEM_PROMPT w); Human (agent_input s)]]
                 [])).
Proof.
  intros Hb Ht Hk Ha Hc.
  rewrite (POST_accepted w body (s := s)) by (rewrite Hb; apply accepted_trim; exact Ht).
  cbv zeta. unfold runFinanceAgent. rewrite Hk.
  change maxIterations with (S 9).
  rewrite (tool_loop_final w 9 0 _ Ha Hc). reflexivity.
Qed.

Lemma direct_answer_witness :
  frames (POST echo_world (request_with (js " NVDA? "))) =
  [mkStreamMessage thought (js "Researching...");
   mkStreamMessage answer (js "NVDA?")].
Proof.
  unfold request_with.
  rewrite (direct_answer echo_world (JObj [(js "message", JStr (js " NVDA? "))])
             (s := js " NVDA? ") (key := js "sk-test")
             (a := mkAIMessage (js "NVDA?") None)).
  - reflexivity.
  - reflexivity.
  - vm_compute. discriminate.
  - reflexivity.
  - reflexivity.
  - reflexivity.
Defined.

(** X10.  White space around the message does not count: a request behaves
    as the request whose message is the trimmed text. *)
Theorem surrounding_white_space_is_ignored
    (w : World) (body body' : JSON) (s : jsstring) :
  prop (js "message") body = Some (JStr s) ->
  prop (js "message") body' = Some (JStr (Js.trim s)) ->
  POST w (inr body') = POST w (inr body).
Proof.
  intros Hb Hb'.
  destruct (Js.trim s) as [|c r] eqn:E.
  - rewrite !POST_rejected; try reflexivity.
    + eapply prop_not_null; eauto.
    + rewrite Hb. unfold accepted. rewrite E. reflexivity.
    + eapply prop_not_null; eauto.
    + rewrite Hb'. reflexivity.
  - rewrite (POST_accepted w body (s := s))
      by (rewrite Hb; apply accepted_trim; rewrite E; discriminate).
    rewrite (POST_accepted w body' (s := c :: r)).
    + unfold agent_input. rewrite <- E, trim_idempotent. reflexivity.
    + rewrite Hb'. apply accepted_trim. rewrite <- E, trim_idempotent, E.
      discriminate.
Qed.

Lemma surrounding_white_space_is_ignored_witness :
  POST echo_world (request_with (js "NVDA?"))
  = POST echo_world (request_with (js "  NVDA? ")).
Proof.
  apply (surrounding_white_space_is_ignored echo_world
           (JObj [(js "message", JStr (js "  NVDA? "))])
           (JObj [(js "message", JStr (js "NVDA?"))])
           (s := js "  NVDA? ")).
  - reflexivity.
  - reflexivity.
Defined.


(** ** The adapters and the client of Alpha Vantage *)

(** A needle whose first code unit does not occur in a text is not
    included in it, and is included in the text extended to the right
    exactly when it is included in the extension. *)
Lemma includes_skip (c : char16) (needle p s : jsstring) :
  forallb (fun x => negb (N.eqb c x)) p = true ->
  Js.includes (c :: needle) (p ++ s) = Js.includes (c :: needle) s.
Proof.
  induction p as [|x p IH]; [reflexivity|].
  cbn [forallb]. rewrite andb_true_iff, negb_true_iff. intros [Hx Hp].
  cbn [app Js.includes Js.startsWith]. rewrite Hx. cbn [andb orb].
  apply IH. exact Hp.
Qed.

Lemma includes_absent (c : char16) (needle s : jsstring) :
  forallb (fun x => negb (N.eqb c x)) s = true ->
  Js.includes (c :: needle) s = false.
Proof.
  intros H. rewrite <- (app_nil_r s). rewrite (includes_skip c needle s [] H).
  reflexivity.
Qed.

Lemma digits_of_uint (d : Decimal.uint) :
  forallb is_digit (Js.lit (NilEmpty.string_of_uint d)) = true.
Proof. induction d; simpl; auto. Qed.

Lemma ofN_digits (n : N) : forallb is_digit (Js.ofN n) = true.
Proof. apply digits_of_uint. Qed.

Lemma digits_lack (c : char16) (s : jsstring) :
  is_digit c = false ->
  forallb is_digit s = true ->
  forallb (fun x => negb (N.eqb c x)) s = true.
Proof.
  intros Hc. induction s as [|x s IH]; [reflexivity|].
  cbn [forallb]. rewrite !andb_true_iff. intros [Hx Hs]. split; [|auto].
  apply negb_true_iff. destruct (N.eqb c x) eqn:E; [|reflexivity].
  apply N.eqb_eq in E. subst x. congruence.
Qed.

(** The message of an HTTP failure holds none of the texts the adapters
    look for. *)
Lemma status_message_is_plain (c : char16) (needle : jsstring) (status : N) :
  is_digit c = false ->
  forallb (fun x => negb (N.eqb c x)) (js "Alpha Vantage API error: ") = true ->
  Js.includes (c :: needle) (js "Alpha Vantage API error: " ++ Js.ofN status) = false.
Proof.
  intros Hd Hp. rewrite (includes_skip c needle _ _ Hp).
  apply includes_absent. apply digits_lack; [exact Hd|apply ofN_digits].
Qed.

(** X12.  Without an Alpha Vantage key (unset or empty) every adapter
    returns, whatever the service would have answered, the cross mark and
    "Error fetching ...:" followed by the message of the missing key, which
    names ALPHA_VANTAGE_API_KEY. *)
Theorem missing_alpha_vantage_key (w : World) (e : Error) :
  getApiKey w = inl e ->
  Js.includes (js "ALPHA_VANTAGE_API_KEY") (message e) = true /\
  (forall u symbol,
      func createStockQuoteTool w u symbol
      = CROSS_MARK ++ js " Error fetching stock quote: " ++ message e) /\
  (forall u symbol,
      func createCompanyInfoTool w u symbol
      = CROSS_MARK ++ js " Error fetching company info: " ++ message e) /\
  (forall u input,
      func createCompanyNewsTool w u input
      = NEWS_CROSS_MARK ++ js " Error fetching news: " ++ message e).
Proof.
  intros K.
  assert (He : e = mkError (js "ALPHA_VANTAGE_API_KEY is not set." ++ LF ++
                 js "Get a free key at: https://www.alphavantage.co/support/#api-key" ++ LF ++
                 js "Then add it to your .env.local file.")).
  { unfold getApiKey in K.
    destruct (ALPHA_VANTAGE_API_KEY w) as [[|c k]|]; congruence. }
  split; [rewrite He; reflexivity|].
  repeat split; intros u x; unfold func;
    cbn [attempt createStockQuoteTool createCompanyInfoTool createCompanyNewsTool];
    unfold getStockQuote, getCompanyInfo, getCompanyNews; rewrite K;
    cbn [bind recover createStockQuoteTool createCompanyInfoTool createCompanyNewsTool];
    rewrite He; reflexivity.
Qed.

Lemma missing_alpha_vantage_key_witness :
  Js.startsWith (CROSS_MARK ++ js " Error fetching stock quote: ALPHA_VANTAGE_API_KEY is not set.")
    (func createStockQuoteTool (without_alpha_vantage_key echo_world)
          (FetchRejects (mkError (js "offline"))) (js "NVDA")) = true.
Proof.
  destruct (missing_alpha_vantage_key (without_alpha_vantage_key echo_world) eq_refl)
    as [_ [H _]].
  rewrite H. reflexivity.
Defined.

(** X13.  When the service answers with an HTTP status that is not ok,
    every adapter returns the cross mark and "Error fetching ...: Alpha
    Vantage API error: " followed by the status in decimal; the body of the
    response is not read. *)
Theorem http_failure_is_reported (w : World) (key : jsstring) (status : N)
    (body : Result JSON) :
  getApiKey w = inr key ->
  (forall symbol,
      func createStockQuoteTool w (Responds false status body) symbol
      = CROSS_MARK ++ js " Error fetching stock quote: Alpha Vantage API error: "
          ++ Js.ofN status) /\
  (forall symbol,
      func createCompanyInfoTool w (Responds false status body) symbol
      = CROSS_MARK ++ js " Error fetching company info: Alpha Vantage API error: "
          ++ Js.ofN status) /\
  (forall input,
      func createCompanyNewsTool w (Responds false status body) input
      = NEWS_CROSS_MARK ++ js " Error fetching news: Alpha Vantage API error: "
          ++ Js.ofN status).
Proof.
  intros K.
  assert (R : Js.includes (js "RATE_LIMITED")
                (js "Alpha Vantage API error: " ++ Js.ofN status) = false)
    by (apply status_message_is_plain; reflexivity).
  assert (D : Js.includes (js "No data found")
                (js "Alpha Vantage API error: " ++ Js.ofN status) = false)
    by (apply status_message_is_plain; reflexivity).
  assert (C : Js.includes (js "No company info found")
                (js "Alpha Vantage API error: " ++ Js.ofN status) = false)
    by (apply status_message_is_plain; reflexivity).
  repeat split; intros x; unfold func;
    cbn [attempt createStockQuoteTool createCompanyInfoTool createCompanyNewsTool];
    unfold getStockQuote, getCompanyInfo, getCompanyNews; rewrite K;
    cbn [bind fetch_data negb recover message
         createStockQuoteTool createCompanyInfoTool createCompanyNewsTool];
    rewrite R, ?D, ?C; rewrite <- ?app_assoc; reflexivity.
Qed.

Lemma http_failure_is_reported_witness :
  func createCompanyInfoTool echo_world
       (Responds false 503 (inl (mkError (js "Unexpected token")))) (js "NVDA")
  = CROSS_MARK ++ js " Error fetching company info: Alpha Vantage API error: 503".
Proof.
  destruct (http_failure_is_reported echo_world (key := js "demo") 503
              (inl (mkError (js "Unexpected token"))) eq_refl) as [_ [H _]].
  rewrite H. reflexivity.
Defined.

Lemma adapters_unknown_symbol (w : World) (u : Upstream) (symbol : jsstring) :
  symbol_unknown w u = true ->
  attempt createStockQuoteTool w u symbol
    = inl (mkError (js "No data found for symbol: " ++ symbol)) /\
  attempt createCompanyInfoTool w u symbol
    = inl (mkError (js "No company info found for symbol: " ++ symbol)).
Proof.
  unfold symbol_unknown.
  destruct (getApiKey w) as [e|key] eqn:K; [discriminate|].
  destruct (fetch_data u) as [e|data] eqn:F; [discriminate|].
  rewrite andb_true_iff, negb_true_iff. intros [U R].
  destruct (unidentified_parts data U) as [Q [S N]].
  cbn [attempt createStockQuoteTool createCompanyInfoTool].
  unfold getStockQuote, getCompanyInfo. rewrite K, F. cbn [bind].
  rewrite !(unidentified_not_null _ _ U). cbn [bind]. rewrite R, S. split.
  - destruct (prop (js "Global Quote") data) as [q|]; [|reflexivity].
    rewrite Q. reflexivity.
  - reflexivity.
Qed.

(** X14.  For a symbol the service does not know, the quote and the
    company adapters return the cross mark and "Could not find ... for",
    the symbol between double quotes, and the hint about valid tickers.
    The adapters tell the failures apart by looking for RATE_LIMITED in
    the message, and the message of this failure ends with the symbol: a
    symbol that contains RATE_LIMITED is answered with the rate-limit
    text instead. *)
Theorem unknown_symbol_is_named (w : World) (u : Upstream) (symbol : jsstring) :
  symbol_unknown w u = true ->
  func createStockQuoteTool w u symbol =
    (if Js.includes (js "RATE_LIMITED") symbol
     then WARNING_SIGN ++ js " API rate limit reached. Alpha Vantage free tier allows 25 requests/day. Try again tomorrow or upgrade your API key."
     else CROSS_MARK ++ js " Could not find stock data for " ++ DQUOTE ++ symbol ++ DQUOTE
            ++ js ". Make sure it's a valid US stock ticker symbol.") /\
  func createCompanyInfoTool w u symbol =
    (if Js.includes (js "RATE_LIMITED") symbol
     then WARNING_SIGN ++ js " API rate limit reached. Alpha Vantage free tier allows 25 requests/day."
     else CROSS_MARK ++ js " Could not find company info for " ++ DQUOTE ++ symbol ++ DQUOTE
            ++ js ". Make sure it's a valid US stock ticker.").
Proof.
  intros U.
  destruct (adapters_unknown_symbol w u symbol U) as [Q I].
  unfold func. rewrite Q, I.
  cbn [recover createStockQuoteTool createCompanyInfoTool message].
  assert (HQ : Js.includes (js "RATE_LIMITED") (js "No data found for symbol: " ++ symbol)
               = Js.includes (js "RATE_LIMITED") symbol)
    by (apply (includes_skip 82%N (js "ATE_LIMITED")); reflexivity).
  assert (HI : Js.includes (js "RATE_LIMITED")
                 (js "No company info found for symbol: " ++ symbol)
               = Js.includes (js "RATE_LIMITED") symbol)
    by (apply (includes_skip 82%N (js "ATE_LIMITED")); reflexivity).
  rewrite HQ, HI.
  destruct (Js.includes (js "RATE_LIMITED") symbol); split; reflexivity.
Qed.

Lemma unknown_symbol_is_named_witness :
  func createStockQuoteTool unknown_world (fetch unknown_world 0 0) (js "ZZZZ")
  = CROSS_MARK ++ js " Could not find stock data for " ++ DQUOTE ++ js "ZZZZ" ++ DQUOTE
      ++ js ". Make sure it's a valid US stock ticker symbol.".
Proof.
  destruct (unknown_symbol_is_named unknown_world (fetch unknown_world 0 0) (js "ZZZZ")
              eq_refl) as [H _].
  rewrite H. reflexivity.
Defined.

(** ** The selection of songs *)

Lemma click_keeps_cap (st : SpotifyAI.State) (c : SpotifyAI.Click) :
  List.length (SpotifyAI.selectedSongs st) <= 3 ->
  List.length (SpotifyAI.selectedSongs (SpotifyAI.click st c)) <= 3.
Proof.
  intros H. destruct c as [song|songId]; cbn [SpotifyAI.click].
  - unfold SpotifyAI.handleSelectSong.
    destruct (List.length (SpotifyAI.selectedSongs st) <? 3) eqn:B; [|exact H].
    apply Nat.ltb_lt in B. cbn [SpotifyAI.selectedSongs].
    rewrite length_app. simpl. lia.
  - cbn [SpotifyAI.handleRemoveSong SpotifyAI.selectedSongs].
    pose proof (filter_length_le
                  (fun s => negb (Js.eqb (SpotifyAI.id s) songId))
                  (SpotifyAI.selectedSongs st)).
    lia.
Qed.

(** X17.  Whatever is clicked, in whatever order, at most 3 songs are
    selected: a fourth selection changes nothing. *)
Theorem selection_holds_at_most_three (clicks : list SpotifyAI.Click) :
  List.length
    (SpotifyAI.selectedSongs (fold_left SpotifyAI.click clicks SpotifyAI.initial)) <= 3.
Proof.
  assert (G : forall st,
             List.length (SpotifyAI.selectedSongs st) <= 3 ->
             List.length (SpotifyAI.selectedSongs (fold_left SpotifyAI.click clicks st)) <= 3).
  { induction clicks as [|c clicks IH]; intros st H; [exact H|].
    cbn [fold_left]. apply IH. apply click_keeps_cap. exact H. }
  apply G. simpl. lia.
Qed.

Lemma filterTracks_fresh (selected tracks : list SpotifyAI.Song) (song : SpotifyAI.Song) :
  In song (SpotifyAI.filterTracks selected tracks) ->
  ~ In (SpotifyAI.id song) (map SpotifyAI.id selected).
Proof.
  unfold SpotifyAI.filterTracks. rewrite filter_In. intros [_ H] Hin.
  destruct (find (fun s => Js.eqb (SpotifyAI.id s) (SpotifyAI.id song)) selected)
    as [s|] eqn:F; [discriminate|].
  apply in_map_iff in Hin. destruct Hin as [s [Hs Hin]].
  pose proof (find_none _ _ F s Hin) as Hf. cbv beta in Hf.
  rewrite Hs in Hf. rewrite (proj2 (eqb_eq _ _) eq_refl) in Hf. discriminate.
Qed.

Lemma NoDup_snoc {A : Type} (l : list A) (x : A) :
  NoDup l -> ~ In x l -> NoDup (l ++ [x]).
Proof.
  induction l as [|y l IH]; intros Hl Hx; simpl.
  - constructor; [intros []|constructor].
  - inversion Hl as [|? ? Hy Hl']; subst. constructor.
    + intros Hin. apply in_app_or in Hin. destruct Hin as [Hin|[->|[]]].
      * contradiction.
      * apply Hx. left. reflexivity.
    + apply IH; [exact Hl'|]. intros Hin. apply Hx. right. exact Hin.
Qed.

Lemma removal_keeps_distinct (songId : jsstring) (songs : list SpotifyAI.Song) :
  NoDup (map SpotifyAI.id songs) ->
  NoDup (map SpotifyAI.id
           (filter (fun s => negb (Js.eqb (SpotifyAI.id s) songId)) songs)).
Proof.
  intros Hd. induction songs as [|song songs IH]; [constructor|].
  cbn [map] in Hd. apply NoDup_cons_iff in Hd. destruct Hd as [Hfresh Hrest].
  cbn [filter]. destruct (negb (Js.eqb (SpotifyAI.id song) songId)).
  - cbn [map]. apply NoDup_cons; [|apply IH; exact Hrest].
    intros Hin. apply Hfresh.
    apply in_map_iff in Hin. destruct Hin as [other [Hid Hin]].
    apply filter_In in Hin. rewrite <- Hid. apply in_map. tauto.
  - apply IH. exact Hrest.
Qed.

Lemma fresh_song_passes (selected tracks : list SpotifyAI.Song) (song : SpotifyAI.Song) :
  ~ In (SpotifyAI.id song) (map SpotifyAI.id selected) ->
  In song tracks ->
  In song (SpotifyAI.filterTracks selected tracks).
Proof.
  intros Hfresh Hin. unfold SpotifyAI.filterTracks. apply filter_In.
  split; [exact Hin|].
  destruct (find (fun s => Js.eqb (SpotifyAI.id s) (SpotifyAI.id song)) selected)
    as [s|] eqn:F; [|reflexivity].
  exfalso. apply Hfresh. apply find_some in F. destruct F as [Hs He].
  apply eqb_eq in He. rewrite <- He. apply in_map. exact Hs.
Qed.

(** X18.  The results shown are filtered against the selection captured
    when the search was scheduled, and [handleSelectSong] does not look at
    ids.  So the results leave out the captured songs; when the selection
    has not changed since, selecting a shown song keeps the ids of a
    selection distinct; but when a song was selected while the search was
    on its way, that song is shown again, and selecting it puts it into the
    selection twice.  Removing a song keeps distinct ids distinct, leaves no
    selected song with the removed id and clears the recommendation. *)
Theorem results_are_filtered_against_the_captured_selection
    (st : SpotifyAI.State) (captured tracks : list SpotifyAI.Song)
    (song : SpotifyAI.Song) (songId : jsstring) :
  (In song (SpotifyAI.filteredSongs (SpotifyAI.showTracks captured tracks st)) ->
   ~ In (SpotifyAI.id song) (map SpotifyAI.id captured)) /\
  (captured = SpotifyAI.selectedSongs st ->
   NoDup (map SpotifyAI.id (SpotifyAI.selectedSongs st)) ->
   In song (SpotifyAI.filteredSongs (SpotifyAI.showTracks captured tracks st)) ->
   NoDup (map SpotifyAI.id
            (SpotifyAI.selectedSongs
               (SpotifyAI.handleSelectSong song
                  (SpotifyAI.showTracks captured tracks st))))) /\
  (List.length (SpotifyAI.selectedSongs st) < 2 ->
   ~ In (SpotifyAI.id song) (map SpotifyAI.id (SpotifyAI.selectedSongs st)) ->
   In song tracks ->
   In song (SpotifyAI.filteredSongs
              (SpotifyAI.showTracks (SpotifyAI.selectedSongs st) tracks
                 (SpotifyAI.handleSelectSong song st))) /\
   SpotifyAI.selectedSongs
     (SpotifyAI.handleSelectSong song
        (SpotifyAI.showTracks (SpotifyAI.selectedSongs st) tracks
           (SpotifyAI.handleSelectSong song st)))
   = SpotifyAI.selectedSongs st ++ [song; song]) /\
  (NoDup (map SpotifyAI.id (SpotifyAI.selectedSongs st)) ->
   NoDup (map SpotifyAI.id
            (SpotifyAI.selectedSongs (SpotifyAI.handleRemoveSong songId st)))) /\
  ~ In songId (map SpotifyAI.id
                 (SpotifyAI.selectedSongs (SpotifyAI.handleRemoveSong songId st))) /\
  SpotifyAI.recommendation (SpotifyAI.handleRemoveSong songId st) = None.
Proof.
  split; [|split; [|split; [|split; [|split]]]].
  - cbn [SpotifyAI.showTracks SpotifyAI.filteredSongs]. apply filterTracks_fresh.
  - intros -> Hd Hin.
    cbn [SpotifyAI.showTracks SpotifyAI.filteredSongs] in Hin.
    unfold SpotifyAI.handleSelectSong.
    cbn [SpotifyAI.showTracks SpotifyAI.selectedSongs].
    destruct (List.length (SpotifyAI.selectedSongs st) <? 3);
      cbn [SpotifyAI.selectedSongs]; [|exact Hd].
    rewrite map_app. apply NoDup_snoc; [exact Hd|].
    apply (filterTracks_fresh _ _ _ Hin).
  - intros Hlen Hfresh Hin. split.
    + cbn [SpotifyAI.showTracks SpotifyAI.filteredSongs].
      apply fresh_song_passes; assumption.
    + unfold SpotifyAI.handleSelectSong at 2.
      assert (H1 : (List.length (SpotifyAI.selectedSongs st) <? 3) = true)
        by (apply Nat.ltb_lt; lia).
      rewrite H1. unfold SpotifyAI.handleSelectSong.
      cbn [SpotifyAI.showTracks SpotifyAI.selectedSongs].
      assert (H2 : (List.length (SpotifyAI.selectedSongs st ++ [song]) <? 3) = true).
      { apply Nat.ltb_lt. rewrite length_app. simpl. lia. }
      rewrite H2. cbn [SpotifyAI.selectedSongs]. rewrite <- app_assoc. reflexivity.
  - intros Hd. cbn [SpotifyAI.handleRemoveSong SpotifyAI.selectedSongs].
    apply removal_keeps_distinct. exact Hd.
  - cbn [SpotifyAI.handleRemoveSong SpotifyAI.selectedSongs].
    intros H. apply in_map_iff in H. destruct H as [s [Hs H]].
    apply filter_In in H. destruct H as [_ H].
    rewrite Hs, (proj2 (eqb_eq _ _) eq_refl) in H. discriminate.
  - reflexivity.
Qed.

Lemma results_are_filtered_against_the_captured_selection_witness :
  SpotifyAI.selectedSongs
    (SpotifyAI.handleSelectSong song_a
       (SpotifyAI.showTracks [] [song_a; song_b]
          (SpotifyAI.handleSelectSong song_a SpotifyAI.initial)))
  = [song_a; song_a].
Proof.
  destruct (results_are_filtered_against_the_captured_selection
              SpotifyAI.initial [] [song_a; song_b] song_a (js "none"))
    as [_ [_ [H _]]].
  apply H.
  - simpl. lia.
  - intros [].
  - left. reflexivity.
Defined.

(** ** Calls and their results *)

Lemma pushed_are_results (l : list (option ToolMessage)) (m : Message) :
  In m (pushed l) -> is_tool m = true.
Proof.
  induction l as [|[t|] l IH]; simpl; [tauto| |exact IH].
  intros [<-|H]; [reflexivity|auto].
Qed.

Lemma pushed_answers (w : World) (i : nat) (cs : list ToolCall) (c : ToolCall) :
  In c cs ->
  registered (call_name c) = true ->
  exists t, In (Tool t) (pushed (run_tool_calls w i 0 cs)) /\ tool_call_id t = call_id c.
Proof.
  intros Hin Hreg. apply In_nth_error in Hin. destruct Hin as [k Hk].
  destruct (run_tool_call_registered w i (0 + k) c Hreg) as [t [Ht Hid]].
  exists t. split; [|exact Hid].
  apply pushed_nth with (k := k) (c := c); assumption.
Qed.

Lemma answered_turn (w : World) (i : nat) (l : list Message) (response : AIMessage) :
  answered l ->
  answered (l ++ AI response :: pushed (run_tool_calls w i 0 (calls response))).
Proof.
  intros Hl pre a post c E Hc Hreg.
  apply app_eq_app in E. destruct E as [mid [[E1 E2]|[E1 E2]]].
  - destruct mid as [|x mid].
    + simpl in E2. injection E2 as Ea Ep. subst a post.
      apply pushed_answers; assumption.
    + injection E2 as <- E2.
      destruct (Hl pre a mid c E1 Hc Hreg) as [t [Ht Hid]].
      exists t. split; [|exact Hid]. rewrite E2. apply in_or_app. left. exact Ht.
  - destruct mid as [|x mid].
    + simpl in E2. injection E2 as Ea Ep. subst a post.
      apply pushed_answers; assumption.
    + injection E2 as _ E2. exfalso.
      assert (H : In (AI a) (pushed (run_tool_calls w i 0 (calls response)))).
      { rewrite E2. apply in_or_app. right. left. reflexivity. }
      apply pushed_are_results in H. discriminate.
Qed.

Lemma loop_answers (w : World) (n i : nat) (messages : list Message) :
  answered messages -> answered (conversation (tool_loop w n i messages)).
Proof.
  revert i messages. induction n as [|n IH]; intros i messages Hm; [exact Hm|].
  destruct (llm_invoke w i messages) as [e|response] eqn:E.
  - rewrite (tool_loop_throws w n i messages E). exact Hm.
  - destruct (carries_tool_calls response) eqn:C.
    + rewrite (tool_loop_continues w n i messages E C). cbv zeta.
      cbn [conversation]. apply IH. rewrite <- app_assoc. cbn [app].
      apply answered_turn. exact Hm.
    + rewrite (tool_loop_final w n i messages E C). cbn [conversation].
      assert (Hn : calls response = []).
      { unfold carries_tool_calls, calls in *.
        destruct (tool_calls response) as [[|c cs]|]; congruence. }
      pose proof (answered_turn w i response Hm) as H.
      rewrite Hn in H. exact H.
Qed.

(** X19.  In the conversation a run ends with, every tool call of an
    assistant turn that names a registered tool is followed by a tool
    result with its identifier, whether the tool succeeded, failed or
    rejected its arguments, and whether the run returned, fell back or
    threw; and no tool result comes without a call before it. *)
Theorem registered_calls_are_answered (w : World) (query : jsstring) :
  answered (conversation (runFinanceAgent w query)) /\
  well_matched (conversation (runFinanceAgent w query)).
Proof.
  unfold runFinanceAgent. destruct (getOpenAIKey w) as [e|key].
  - split.
    + intros pre a post c E. destruct pre; discriminate.
    + intros pre t post E. destruct pre; discriminate.
  - split.
    + apply loop_answers. intros pre a post c E.
      destruct pre as [|x [|y [|z pre]]]; discriminate.
    + apply conversation_well_matched. apply initial_well_matched.
Qed.

(** ** The last iteration *)

(** X20.  At the ceiling the tools still run: when the 10th reply carries
    tool calls, the tools it asks for are executed and their results are
    appended to the conversation, and the run ends there, with no model
    invocation that would see them. *)
Theorem last_turn_tools_still_run (w : World) (query : jsstring)
    (m : list Message) (a : AIMessage) :
  nth_error (invocations (runFinanceAgent w query)) 9 = Some m ->
  llm_invoke w 9 m = inr a ->
  carries_tool_calls a = true ->
  List.length (invocations (runFinanceAgent w query)) = 10 /\
  conversation (runFinanceAgent w query)
  = m ++ AI a :: pushed (run_tool_calls w 9 0 (calls a)).
Proof.
  unfold runFinanceAgent. destruct (getOpenAIKey w) as [e|key]; [discriminate|].
  set (start := [System (FINANCE_AGENT_SYSTEM_PROMPT w); Human query]).
  intros Hm Ha Hc.
  pose proof (invocations_bound w maxIterations 0 start) as Hle.
  assert (Hlt : 9 < List.length (invocations (tool_loop w maxIterations 0 start))).
  { apply nth_error_Some. congruence. }
  assert (Hlen : List.length (invocations (tool_loop w maxIterations 0 start)) = 10).
  { unfold maxIterations in Hle at 2. lia. }
  split; [exact Hlen|].
  assert (H9 : nth_error (states (tool_loop w maxIterations 0 start)) 9 = Some m).
  { unfold states. rewrite nth_error_app1 by exact Hlt. exact Hm. }
  assert (H10 : nth_error (states (tool_loop w maxIterations 0 start)) 10
                = Some (conversation (tool_loop w maxIterations 0 start))).
  { unfold states. rewrite nth_error_app2 by lia. rewrite Hlen. reflexivity. }
  pose proof (iteration_step w maxIterations 0 9 start H9 H10) as Hstep.
  cbn [Nat.add] in Hstep. rewrite Ha in Hstep.
  rewrite Hstep, <- app_assoc. reflexivity.
Qed.

Lemma last_turn_tools_still_run_witness :
  List.length (executions (runFinanceAgent insistent_world (js "hi"))) = 10 /\
  List.length (invocations (runFinanceAgent insistent_world (js "hi"))) = 10.
Proof.
  split; [vm_compute; reflexivity|].
  apply (last_turn_tools_still_run insistent_world (js "hi")
           (m := nth 9 (invocations (runFinanceAgent insistent_world (js "hi"))) [])
           (a := mkAIMessage [] (Some [call "get_stock_quote" "nvda" "call_1"]))).
  - vm_compute. reflexivity.
  - reflexivity.
  - reflexivity.
Defined.
